(** * resolve: the per-resolver query engine and the wildcard detector

    A shallow embedding of [base.go] (the query engine of one upstream
    resolver) and of [wildcards.go] (DNS wildcard detection), with the
    properties of the specification stated and proved over it.

    Conventions.
    - Go's [int], [int64] and [time.Duration] are [Z]; where the source can
      leave the 64-bit range the wrap-around is written out ([wrap64]).
    - [time.Time] is the number of nanoseconds since the zero instant, so
      [IsZero t] is [t = 0].
    - Goroutines, channels and locks are not modelled as such: every loop is
      given as the function that one iteration applies to the loop's state,
      and what a goroutine sends on a request's result channel is recorded in
      the order of delivery.
    - A run-time panic is a value ([Panic]) of the result type. *)

From Stdlib Require Import ZArith List String Ascii DecimalString Lia Bool.
From stdpp Require Import base gmap sets list strings.

Import ListNotations.

Local Open Scope string_scope.
Local Open Scope Z_scope.

(** * Go strings *)

Module GoStrings.

(** [len(s)]: the number of bytes of [s]. *)
Definition len (s : string) : Z := Z.of_nat (String.length s).

Definition isUpper (c : ascii) : bool :=
  let n := nat_of_ascii c in (65 <=? n)%nat && (n <=? 90)%nat.

(** [strings.ToLower] on ASCII text, which is what DNS names are. *)
Definition lowerByte (c : ascii) : ascii :=
  if isUpper c then ascii_of_nat (nat_of_ascii c + 32) else c.

Fixpoint ToLower (s : string) : string :=
  match s with
  | EmptyString => EmptyString
  | String c s' => String (lowerByte c) (ToLower s')
  end.

(** [strings.Split(s, ".")]: never empty, the split of the empty string is the empty string alone. *)
Fixpoint Split (s : string) : list string :=
  match s with
  | EmptyString => [EmptyString]
  | String c s' =>
      if Ascii.eqb c "." then EmptyString :: Split s'
      else match Split s' with
           | x :: xs => String c x :: xs
           | [] => [String c EmptyString]
           end
  end.

(** [strings.Join(l, ".")]. *)
Fixpoint Join (l : list string) : string :=
  match l with
  | [] => EmptyString
  | [x] => x
  | x :: xs => x ++ "." ++ Join xs
  end.

Fixpoint TrimLeft (c : ascii) (s : string) : string :=
  match s with
  | EmptyString => EmptyString
  | String a s' => if Ascii.eqb a c then TrimLeft c s' else s
  end.

Fixpoint TrimRight (c : ascii) (s : string) : string :=
  match s with
  | EmptyString => EmptyString
  | String a s' =>
      match TrimRight c s' with
      | EmptyString => if Ascii.eqb a c then EmptyString else String a EmptyString
      | t => String a t
      end
  end.

(** [strings.Trim(s, cutset)] for a cutset of one character. *)
Definition Trim (s : string) (c : ascii) : string := TrimRight c (TrimLeft c s).

(** [strings.HasSuffix(s, suffix)]. *)
Definition HasSuffix (s suffix : string) : bool :=
  let n := String.length s in
  let k := String.length suffix in
  (k <=? n)%nat && String.eqb (String.substring (n - k) k s) suffix.

(** Go's slice expression [l[i:]] for [0 <= i <= len(l)]. *)
Definition sliceFrom {A} (l : list A) (i : Z) : list A := drop (Z.to_nat i) l.

(** Modelled from the spec: [RemoveLastDot] is defined outside the two
    source files; section 4.7 gives it as stripping a single trailing
    ".". *)
Fixpoint RemoveLastDot (s : string) : string :=
  match s with
  | EmptyString => EmptyString
  | String c EmptyString => if Ascii.eqb c "." then EmptyString else s
  | String c s' => String c (RemoveLastDot s')
  end.

End GoStrings.

(** * Machine integers, durations and instants *)

Definition maxInt64 : Z := 2 ^ 63 - 1.
Definition minInt64 : Z := - 2 ^ 63.

(** Two's complement wrap-around of a 64-bit signed result. *)
Definition wrap64 (z : Z) : Z := (z + 2 ^ 63) mod 2 ^ 64 - 2 ^ 63.

(** The integer an [int64] becomes under Go's conversion [float64(z)]:
    exact up to 53 bits, rounded to nearest (ties to even) above. *)
Definition float64_of_int64 (z : Z) : Z :=
  let a := Z.abs z in
  if a <? 2 ^ 53 then z
  else
    let e := Z.log2 a - 52 in
    let q := a / 2 ^ e in
    let r := a mod 2 ^ e in
    let h := 2 ^ (e - 1) in
    let q' := if (h <? r) || ((r =? h) && Z.odd q) then q + 1 else q in
    Z.sgn z * (q' * 2 ^ e).

Module Time.

Definition Duration := Z.
Definition Time := Z.

Definition Nanosecond : Duration := 1.
Definition Millisecond : Duration := 1000000.
Definition Second : Duration := 1000000000.
Definition Minute : Duration := 60 * Second.

Definition zero : Time := 0.
Definition IsZero (t : Time) : bool := t =? 0.
Definition After (t u : Time) : bool := u <? t.
Definition Before (t u : Time) : bool := t <? u.

(** [t.Sub(u)]: the difference, saturated to the range of [Duration]. *)
Definition Sub (t u : Time) : Duration :=
  if maxInt64 <? t - u then maxInt64
  else if t - u <? minInt64 then minInt64
  else t - u.

Definition Add (t : Time) (d : Duration) : Time := t + d.

End Time.

(** * DNS messages (github.com/miekg/dns), as far as the engine reads them *)

Module Dns.

Definition RcodeSuccess : Z := 0.

Record Question := { QName : string; Qtype : Z }.

(** A resource record of the answer section: owner name, type and the
    record data in presentation form. *)
Record RR := { RRName : string; Rrtype : Z; Rdata : string }.

Record Msg := {
  Id : Z;
  Rcode : Z;
  Truncated : bool;
  Questions : list Question;
  Answer : list RR
}.

(** [dns.Client], the two fields [tcpExchange] sets. *)
Record Client := { Net : string; Timeout : Time.Duration }.

End Dns.

(** * Declarations of the package that the two source files use but do not
      contain *)

(** The result codes and priorities are constants of the package; their
    values are not fixed here. *)
Class PackageDecls := {
  RetryCodes : list Z;
  TimeoutRcode : Z;
  ResolverErrRcode : Z;
  RcodeToString : Z -> string;
  PriorityCritical : Z;
  PriorityHigh : Z;
  PriorityNormal : Z;
  PriorityLow : Z
}.

(** A run of Go code either returns or panics; [OutOfFuel] is the answer of
    the model when a loop that has no bound of its own in the source has used
    up the bound the model gives it. *)
Inductive outcome (A : Type) : Type :=
| Returned (a : A)
| Panic (msg : string)
| OutOfFuel.
Arguments Returned {A} a.
Arguments Panic {A} msg.
Arguments OutOfFuel {A}.

Definition outcome_bind {A B} (f : A -> outcome B) (m : outcome A) : outcome B :=
  match m with
  | Returned a => f a
  | Panic msg => Panic msg
  | OutOfFuel => OutOfFuel
  end.

#[export] Instance outcome_mbind : MBind outcome := @outcome_bind.
#[export] Instance outcome_mret : MRet outcome := @Returned.

(** * The query engine of one resolver ([base.go]) *)

Module Engine.
Import Time Dns GoStrings.

Definition maxDelayBetweenSamples : Duration := 250 * Millisecond.
Definition minSamplingTime : Duration := 5 * Second.
Definition minSampleSetSize : Z := 5.

(** [fmt.Sprintf("%d", z)]. *)
Definition itoa (z : Z) : string :=
  DecimalString.NilZero.string_of_int (Z.to_int z).

Record ResolveError := { Err : string; ErrRcode : Z }.

Record resolveResult := {
  ResMsg : option Msg;
  Again : bool;
  ResErr : option ResolveError
}.

(** A request; [Result] names the channel the result is sent on and
    [ReqMsg] is the pointer to the query, [None] when nil. *)
Record resolveRequest := {
  ID : Z;
  Name : string;
  ReqQtype : Z;
  ReqMsg : option Msg;
  Timestamp : Time;
  Result : nat
}.

Record readMsg := { Req : resolveRequest; Resp : Msg }.

(** [ratelimit.New(perSec, ratelimit.WithoutSlack)]: a limiter is known by
    its rate. *)
Record Limiter := { rate : Z }.

Inductive queuePriority :=
| QueuePriorityLow | QueuePriorityNormal | QueuePriorityHigh | QueuePriorityCritical.

(** The fields of [baseResolver] that the modelled methods read or write.
    [delivered] lists, oldest first, what has been sent on the result
    channels of the requests. *)
Record baseResolver := {
  stopped : bool;
  rlimit : Limiter;
  xchgQueue : list (resolveRequest * queuePriority);
  xchgs : list resolveRequest;
  readMsgs : list readMsg;
  address : string;
  perSec : Z;
  delivered : list (nat * resolveResult)
}.

Definition set_rlimit (r : baseResolver) (l : Limiter) : baseResolver :=
  {| stopped := stopped r; rlimit := l; xchgQueue := xchgQueue r;
     xchgs := xchgs r; readMsgs := readMsgs r; address := address r;
     perSec := perSec r; delivered := delivered r |}.

Definition set_xchgQueue (r : baseResolver)
    (q : list (resolveRequest * queuePriority)) : baseResolver :=
  {| stopped := stopped r; rlimit := rlimit r; xchgQueue := q;
     xchgs := xchgs r; readMsgs := readMsgs r; address := address r;
     perSec := perSec r; delivered := delivered r |}.

Definition set_xchgs (r : baseResolver) (t : list resolveRequest) : baseResolver :=
  {| stopped := stopped r; rlimit := rlimit r; xchgQueue := xchgQueue r;
     xchgs := t; readMsgs := readMsgs r; address := address r;
     perSec := perSec r; delivered := delivered r |}.

Definition set_readMsgs (r : baseResolver) (q : list readMsg) : baseResolver :=
  {| stopped := stopped r; rlimit := rlimit r; xchgQueue := xchgQueue r;
     xchgs := xchgs r; readMsgs := q; address := address r;
     perSec := perSec r; delivered := delivered r |}.

Definition set_delivered (r : baseResolver)
    (d : list (nat * resolveResult)) : baseResolver :=
  {| stopped := stopped r; rlimit := rlimit r; xchgQueue := xchgQueue r;
     xchgs := xchgs r; readMsgs := readMsgs r; address := address r;
     perSec := perSec r; delivered := d |}.

(** Modelled from the spec: [makeResolveResult] is defined outside the two
    source files; a result carries the response, the retryable flag, the
    error description and the response code (section 3). *)
Definition makeResolveResult (msg : option Msg) (again : bool) (err : string)
    (rcode : Z) : resolveResult :=
  {| ResMsg := msg; Again := again;
     ResErr := Some {| Err := err; ErrRcode := rcode |} |}.

(** Modelled from the spec: [returnRequest] is defined outside the two source
    files; it completes the request by writing the result to the request's
    result sink. *)
Definition returnRequest (r : baseResolver) (req : resolveRequest)
    (res : resolveResult) : baseResolver :=
  set_delivered r (delivered r ++ [(Result req, res)])%list.

(** ** The exchange table *)

(** Modelled from the spec: the exchange table ([xchgManager]) is defined
    outside the two source files. Section 4.1: entries are keyed by query
    id and question name, names compared in lowercase without the trailing
    dot. *)
Definition xchgKeyEq (id : Z) (name : string) (req : resolveRequest) : bool :=
  (ID req =? id) &&
  String.eqb (ToLower (RemoveLastDot (Name req))) (ToLower (RemoveLastDot name)).

Definition with_ID (req : resolveRequest) (id : Z) : resolveRequest :=
  {| ID := id; Name := Name req; ReqQtype := ReqQtype req; ReqMsg := ReqMsg req;
     Timestamp := Timestamp req; Result := Result req |}.

Definition with_Timestamp (req : resolveRequest) (t : Time) : resolveRequest :=
  {| ID := ID req; Name := Name req; ReqQtype := ReqQtype req; ReqMsg := ReqMsg req;
     Timestamp := t; Result := Result req |}.

(** Modelled from the spec: [add] keeps the caller's id when it is free for
    the name and otherwise tries the replacement ids [retry] in turn, a
    bounded number of them; with none free it fails with [IdExhausted]. *)
Fixpoint xchgFreeId (name : string) (ids : list Z) (t : list resolveRequest)
    : option Z :=
  match ids with
  | [] => None
  | id :: rest =>
      if existsb (xchgKeyEq id name) t then xchgFreeId name rest t else Some id
  end.

(** Modelled from the spec: [add] proper, which returns the request as
    entered and the table, or the error. *)
Definition xchgAdd (req : resolveRequest) (retry : list Z)
    (t : list resolveRequest) : string + resolveRequest * list resolveRequest :=
  match xchgFreeId (Name req) (ID req :: retry) t with
  | None => inl "IdExhausted"
  | Some id => inr (with_ID req id, (t ++ [with_ID req id])%list)
  end.

(** Modelled from the spec: [remove] returns the entry and deletes it, or
    nil. *)
Fixpoint xchgRemove (id : Z) (name : string) (t : list resolveRequest)
    : option resolveRequest * list resolveRequest :=
  match t with
  | [] => (None, [])
  | req :: rest =>
      if xchgKeyEq id name req then (Some req, rest)
      else let '(found, rest') := xchgRemove id name rest in (found, req :: rest')
  end.

(** Modelled from the spec: [updateTimestamp] sets the send time to now. *)
Definition xchgUpdateTimestamp (id : Z) (name : string) (now : Time)
    (t : list resolveRequest) : list resolveRequest :=
  map (fun req => if xchgKeyEq id name req then with_Timestamp req now else req) t.

(** Modelled from the spec: [removeExpired] returns and deletes the entries
    whose send timestamp is older than the timeout threshold; the clock of an
    entry starts only once it is on the wire. *)
Definition xchgExpired (threshold : Duration) (now : Time)
    (req : resolveRequest) : bool :=
  negb (IsZero (Timestamp req)) && After now (Add (Timestamp req) threshold).

(** Modelled from the spec: [removeExpired] proper, which returns the
    expired entries and the table without them. *)
Definition xchgRemoveExpired (threshold : Duration) (now : Time)
    (t : list resolveRequest) : list resolveRequest * list resolveRequest :=
  (List.filter (xchgExpired threshold now) t,
   List.filter (fun req => negb (xchgExpired threshold now req)) t).

(** Modelled from the spec: [removeAll] drains the table. *)
Definition xchgRemoveAll (t : list resolveRequest)
    : list resolveRequest * list resolveRequest := (t, []).

(** The request has a message ([req.Msg != nil]). *)
Definition hasMsg (req : resolveRequest) : bool :=
  match ReqMsg req with Some _ => true | None => false end.

Section WithDecls.
Context `{PackageDecls}.

(** ** [queueQuery] *)

(** What the [select] of [queueQuery] receives first. *)
Inductive selected :=
| CtxDone
| FromResultChan (res : resolveResult).

Definition queuePriorityOf (p : Z) : queuePriority :=
  if p =? PriorityCritical then QueuePriorityCritical
  else if p =? PriorityHigh then QueuePriorityHigh
  else if p =? PriorityLow then QueuePriorityLow
  else QueuePriorityNormal.

(** [queueQuery]; [msg] has a question (the source indexes [Question[0]]
    and panics without one), [resultChan] is the fresh channel, [retry] the
    ids the table may try and [sel] the branch of the [select] taken. *)
Definition queueQuery (r : baseResolver) (msg : Msg) (p : Z) (resultChan : nat)
    (retry : list Z) (sel : selected) : outcome (resolveResult * baseResolver) :=
  let priority := queuePriorityOf p in
  match Questions msg with
  | [] => Panic "index out of range"
  | q :: _ =>
      let req := {| ID := Id msg; Name := RemoveLastDot (QName q);
                    ReqQtype := Qtype q; ReqMsg := Some msg;
                    Timestamp := zero; Result := resultChan |} in
      match xchgAdd req retry (xchgs r) with
      | inl err =>
          let estr := "Failed to obtain a valid message identifier: " ++ err in
          Returned (makeResolveResult None true estr ResolverErrRcode, r)
      | inr (req', t) =>
          let r1 := set_xchgs r t in
          let r2 := set_xchgQueue r1 (xchgQueue r1 ++ [(req', priority)])%list in
          let result :=
            match sel with
            | CtxDone =>
                makeResolveResult None false "The request context was cancelled"
                  TimeoutRcode
            | FromResultChan res => res
            end in
          Returned (result, r2)
      end
  end.

(** ** [writeMessage] *)

(** [deadlineErr] and [writeErr] are the errors, if any, that
    [conn.SetWriteDeadline] and [conn.WriteMsg] return; [now] is the instant
    the table stamps the request with. *)
Definition writeMessage (r : baseResolver) (deadlineErr writeErr : option string)
    (now : Time) (req : resolveRequest) : baseResolver :=
  match deadlineErr with
  | Some err =>
      let estr := "Failed to set the write deadline: " ++ err in
      let r1 := set_xchgs r (snd (xchgRemove (ID req) (Name req) (xchgs r))) in
      returnRequest r1 req (makeResolveResult None true estr TimeoutRcode)
  | None =>
      match writeErr with
      | Some err =>
          let estr := "Failed to write the query msg: " ++ err in
          let r1 := set_xchgs r (snd (xchgRemove (ID req) (Name req) (xchgs r))) in
          returnRequest r1 req (makeResolveResult None true estr TimeoutRcode)
      | None =>
          set_xchgs r (xchgUpdateTimestamp (ID req) (Name req) now (xchgs r))
      end
  end.

(** ** [timeouts] *)

(** One tick of the [timeouts] loop (the [t.C] branch). *)
Definition timeoutsTick (threshold : Duration) (now : Time) (r : baseResolver)
    : baseResolver :=
  let '(expired, rest) := xchgRemoveExpired threshold now (xchgs r) in
  fold_left
    (fun r' req =>
       match ReqMsg req with
       | Some _ =>
           let estr := "Query on resolver " ++ address r ++ ", for " ++ Name req
                       ++ " type " ++ itoa (ReqQtype req) ++ " timed out" in
           returnRequest r' req (makeResolveResult None true estr TimeoutRcode)
       | None => r'
       end)
    expired (set_xchgs r rest).

(** The drain after the loop has been left on the done signal. *)
Definition timeoutsDrain (r : baseResolver) : baseResolver :=
  let '(all, rest) := xchgRemoveAll (xchgs r) in
  fold_left
    (fun r' req =>
       match ReqMsg req with
       | Some _ =>
           let estr := "Resolver " ++ address r ++ " has stopped" in
           returnRequest r' req (makeResolveResult None false estr ResolverErrRcode)
       | None => r'
       end)
    all (set_xchgs r rest).

(** ** [responses] *)

(** The local variables of the [responses] loop. *)
Record sampler := {
  responseTimes : list Time;
  collect : Time;
  stoppedAt : Time;
  last : Time
}.

Definition initSampler : sampler :=
  {| responseTimes := []; collect := zero; stoppedAt := zero; last := zero |}.

(** The closure [update]: hands a copy of the buffer to a new
    [calcNewRate] goroutine, empties the buffer and notes the time. The
    second component is the argument of the goroutine. *)
Definition update (s : sampler) (now : Time) : sampler * list Time :=
  ({| responseTimes := []; collect := collect s; stoppedAt := stoppedAt s;
      last := now |},
   responseTimes s).

(** What one iteration of the loop observes: the value received on
    [r.measure] ([None] when the [select] takes [default]), the message read
    from the connection ([None] unless [err == nil && m != nil]) and the
    readings of the clock, in the order the iteration takes them. *)
Record observed := {
  measured : option Time;
  nowMeasured : Time;
  readMsgResult : option Msg;
  rtime : Time;
  nowUpdate : Time
}.

(** The [select] at the head of an iteration (done not signalled). *)
Definition onMeasure (s : sampler) (o : observed) : sampler * list (list Time) :=
  match measured o with
  | Some t =>
      let s1 := {| responseTimes := responseTimes s; collect := t;
                   stoppedAt := stoppedAt s; last := last s |} in
      if IsZero (collect s1) then
        ({| responseTimes := responseTimes s1; collect := collect s1;
            stoppedAt := nowMeasured o; last := last s1 |}, [])
      else
        let '(s2, times) := update s1 (nowMeasured o) in (s2, [times])
  | None => (s, [])
  end.

(** The sampling decision for a response matched to the request [req]:
    the new sampler and the goroutines started. *)
Definition onResponse (s : sampler) (req : resolveRequest) (o : observed)
    : sampler * list (list Time) :=
  let '(add, s1, spawned) :=
    if negb (IsZero (collect s)) && After (Timestamp req) (collect s) then
      (true, s, [])
    else if IsZero (collect s) && Before (Timestamp req) (stoppedAt s) then
      (true, s, [])
    else if (minSampleSetSize <? Z.of_nat (length (responseTimes s)))
            && (minSamplingTime <? Sub (rtime o) (last s)) then
      let '(s', times) := update s (nowUpdate o) in (false, s', [times])
    else (false, s, []) in
  if add : bool then
    ({| responseTimes := (responseTimes s1 ++ [rtime o])%list;
        collect := collect s1; stoppedAt := stoppedAt s1; last := last s1 |},
     spawned)
  else (s1, spawned).

(** The first two branches of that decision: the response is counted as
    a sample. *)
Definition sampled (s : sampler) (req : resolveRequest) : bool :=
  (negb (IsZero (collect s)) && After (Timestamp req) (collect s))
  || (IsZero (collect s) && Before (Timestamp req) (stoppedAt s)).

(** One iteration of the [responses] loop: the resolver, the sampler and
    the arguments of the [calcNewRate] goroutines it started. *)
Definition responsesIter (r : baseResolver) (s : sampler) (o : observed)
    : baseResolver * sampler * list (list Time) :=
  let '(s1, g1) := onMeasure s o in
  match readMsgResult o with
  | Some m =>
      match Questions m with
      | q :: _ =>
          match xchgRemove (Id m) (QName q) (xchgs r) with
          | (Some req, t) =>
              let '(s2, g2) := onResponse s1 req o in
              let r1 := set_xchgs r t in
              (set_readMsgs r1 (readMsgs r1 ++ [{| Req := req; Resp := m |}])%list,
               s2, (g1 ++ g2)%list)
          | (None, _) => (r, s1, g1)
          end
      | [] => (r, s1, g1)
      end
  | None => (r, s1, g1)
  end.

(** ** [calcNewRate] *)

(** The [range] loop: [i] is the index, [last] and [total] the two
    variables. *)
Fixpoint sumGaps (i : Z) (last : Time) (total : Duration) (times : list Time)
    : Duration :=
  match times with
  | [] => total
  | t :: rest =>
      sumGaps (i + 1) t
        (if 0 <? i then wrap64 (total + Sub t last) else total) rest
  end.

Definition setRateLimit (r : baseResolver) (perSec : Z) : baseResolver :=
  set_rlimit r {| rate := perSec |}.

Definition calcNewRate (r : baseResolver) (times : list Time)
    : outcome baseResolver :=
  if Z.of_nat (length times) <? minSampleSetSize then Returned r
  else
    let total := sumGaps 0 zero 0 times in
    let avg := Z.quot total (Z.of_nat (length times) - 1) in
    let avg := if Second <? avg then Second else avg in
    let avg := wrap64 (avg - Z.quot (float64_of_int64 avg) 4) in
    if avg =? 0 then Panic "integer divide by zero"
    else
      let persec := Z.quot Second avg in
      let persec := if persec <=? 1 then perSec r else persec in
      Returned (setRateLimit r persec).

(** The rate as section 4.4 of the specification words it, for a mean gap
    [avg] in nanoseconds: [floor(1 s / (0.75 * min(avg, 1 s)))], the
    quotient taken over the rationals. *)
Definition specRate (avg : Z) : Z := (4 * Second) / (3 * Z.min avg Second).

(** The samples lie in a window of less than [2 ^ 63] nanoseconds that
    starts at [lo]. *)
Definition inWindow (lo : Z) (t : Time) : Prop := lo <= t < lo + 2 ^ 63.

(** The mean gap between the arrivals, in whole nanoseconds. *)
Definition meanGap (times : list Time) : Z :=
  Z.quot (List.last times 0 - hd 0 times) (Z.of_nat (length times) - 1).

(** ** [processMessage], [tcpExchange] and [handleReads] *)

(** [processMessage]: the resolver and the request a [tcpExchange]
    goroutine has been started for, if any. *)
Definition processMessage (r : baseResolver) (m : Msg) (req : resolveRequest)
    : baseResolver * option resolveRequest :=
  if negb (Rcode m =? RcodeSuccess) then
    let again := existsb (fun code => Rcode m =? code) RetryCodes in
    let estr := "Query on resolver " ++ address r ++ ", for " ++ Name req
                ++ " type " ++ itoa (ReqQtype req) ++ " returned error "
                ++ RcodeToString (Rcode m) in
    (returnRequest r req (makeResolveResult (Some m) again estr (Rcode m)), None)
  else if Truncated m then (r, Some req)
  else
    (returnRequest r req {| ResMsg := Some m; Again := false; ResErr := None |},
     None).

(** [client.Exchange]: the reply and the error, either of which may be
    nil, for a client, a query and an address. *)
Definition exchanger := Client -> option Msg -> string -> option Msg * option string.

Definition tcpExchange (exchange : exchanger) (r : baseResolver)
    (req : resolveRequest) : baseResolver :=
  let client := {| Net := "tcp"; Timeout := Minute |} in
  match exchange client (ReqMsg req) (address r) with
  | (_, Some err) =>
      let estr := "Failed to perform the exchange via TCP to " ++ address r
                  ++ ": " ++ err in
      returnRequest r req (makeResolveResult None true estr ResolverErrRcode)
  | (m, None) =>
      returnRequest r req {| ResMsg := m; Again := false; ResErr := None |}
  end.

(** The closure [each] of [handleReads], with the goroutine that
    [processMessage] may start run to its end. *)
Definition each (exchange : exchanger) (r : baseResolver) (read : readMsg)
    : baseResolver :=
  match processMessage r (Resp read) (Req read) with
  | (r', Some req) => tcpExchange exchange r' req
  | (r', None) => r'
  end.

(** One iteration of the [handleReads] loop (the [Signal] branch). *)
Definition handleReadsIter (exchange : exchanger) (r : baseResolver)
    : baseResolver :=
  match readMsgs r with
  | [] => r
  | e :: rest => each exchange (set_readMsgs r rest) e
  end.

(** The drain of the read queue after the done signal. *)
Definition handleReadsDrain (exchange : exchanger) (r : baseResolver)
    : baseResolver :=
  fold_left (each exchange) (readMsgs r) (set_readMsgs r []).

End WithDecls.
End Engine.

(** * String sets (github.com/caffix/stringset) *)

Module StringSet.

(** The set stores each element under a key computed from it (a library
    of this kind may fold the case of what it is given); the key function is
    left open, and with the identity the elements are the strings
    themselves. *)
Class Key := { setKey : string -> string }.

Section WithKey.
Context `{Key}.

Definition New : gset string := ∅.
Definition Insert (v : string) (s : gset string) : gset string := {[ setKey v ]} ∪ s.
Definition Has (v : string) (s : gset string) : bool := bool_decide (setKey v ∈ s).
Definition Union (s other : gset string) : gset string := s ∪ other.
Definition Intersect (s other : gset string) : gset string := s ∩ other.
Definition Len (s : gset string) : Z := Z.of_nat (size s).

End WithKey.
End StringSet.

(** * Wildcard detection ([wildcards.go]) *)

Module Wildcards.
Import Dns GoStrings StringSet.

Definition MaxDNSNameLen : Z := 253.
Definition MaxDNSLabelLen : Z := 63.
Definition MinLabelLen : Z := 6.
Definition MaxLabelLen : Z := 24.
Definition LDHChars : string := "abcdefghijklmnopqrstuvwxyz0123456789-".

Definition numOfWildcardTests : Z := 3.
Definition maxQueryAttempts : Z := 5.

Definition TypeA : Z := 1.
Definition TypeCNAME : Z := 5.
Definition TypeAAAA : Z := 28.

Definition wildcardQueryTypes : list Z := [TypeCNAME; TypeA; TypeAAAA].

Record ExtractedAnswer := { AnsName : string; AnsType : Z; Data : string }.

Definition with_Data (a : ExtractedAnswer) (d : string) : ExtractedAnswer :=
  {| AnsName := AnsName a; AnsType := AnsType a; Data := d |}.

Record wildcard := { Detected : bool; Answers : list ExtractedAnswer }.

(** The element of a string set that the data of an answer is. *)
Abbreviation answerKey := (fun a : ExtractedAnswer => setKey (Data a)).

(** A member of the pool, as far as the detector reads it. *)
Record resolver := { qps : Z; raddress : string }.

(** ** What the detector takes from outside the two source files *)

(** [ExtractAnswers] is defined outside the two source files. *)
Class Extractor := { ExtractAnswers : Msg -> list ExtractedAnswer }.

(** The shared pseudorandom source of [math/rand], with state [G]:
    [rand.Intn(n)] and [rand.Int()]. *)
Class RandSource (G : Type) := {
  Intn : Z -> G -> Z * G;
  Int : G -> Z * G
}.

(** The contract of [math/rand]: [Intn(n)] lies in [[0, n)] for [n > 0] and
    [Int()] is a non-negative 63-bit integer. *)
Definition rand_ok {G} `{RandSource G} : Prop :=
  (forall n g, 0 < n -> 0 <= fst (Intn n g) < n) /\
  (forall g, 0 <= fst (Int g) < 2 ^ 63).

(** The detection resolver seen from [makeQueryAttempts]: [detector.query]
    followed by the receive on the channel, with [N] the state of the
    network. *)
Class Detector (N : Type) := {
  query : resolver -> string -> Z -> N -> Msg * N
}.

(** The operations of the pool and of package [net] that
    [SetDetectionResolver] and [goodDetector] call. *)
Class Pool (G : Type) := {
  randResolver : list resolver -> G -> option resolver * G;
  AddResolvers : Z -> string -> list resolver -> option string * list resolver;
  searchList : string -> list resolver -> option resolver;
  SplitHostPortFails : string -> bool;
  JoinHostPort : string -> string -> string
}.

(** ** The pool *)

Section WithState.
Context {G N : Type}.

Record Resolvers := {
  pool : list resolver;
  detector : option resolver;
  wildcards : gmap string wildcard;
  rng : G;
  net : N;
  log : list string
}.

Definition set_pool (r : Resolvers) (l : list resolver) : Resolvers :=
  {| pool := l; detector := detector r; wildcards := wildcards r;
     rng := rng r; net := net r; log := log r |}.

Definition set_detector (r : Resolvers) (d : option resolver) : Resolvers :=
  {| pool := pool r; detector := d; wildcards := wildcards r;
     rng := rng r; net := net r; log := log r |}.

Definition set_wildcards (r : Resolvers) (m : gmap string wildcard) : Resolvers :=
  {| pool := pool r; detector := detector r; wildcards := m;
     rng := rng r; net := net r; log := log r |}.

Definition set_rng (r : Resolvers) (g : G) : Resolvers :=
  {| pool := pool r; detector := detector r; wildcards := wildcards r;
     rng := g; net := net r; log := log r |}.

Definition set_net (r : Resolvers) (n : N) : Resolvers :=
  {| pool := pool r; detector := detector r; wildcards := wildcards r;
     rng := rng r; net := n; log := log r |}.

Definition set_log (r : Resolvers) (l : list string) : Resolvers :=
  {| pool := pool r; detector := detector r; wildcards := wildcards r;
     rng := rng r; net := net r; log := l |}.

End WithState.
Arguments Resolvers : clear implicits.

(** ** [UnlikelyName] *)

Section WithRand.
Context {G : Type} `{RandSource G}.

(** The closure given to [rand.Shuffle]:
    [ldh[i], ldh[j] = ldh[j], ldh[i]]. *)
Definition swap {A} (i j : Z) (l : list A) : list A :=
  match l !! Z.to_nat i, l !! Z.to_nat j with
  | Some x, Some y => <[Z.to_nat i := y]> (<[Z.to_nat j := x]> l)
  | _, _ => l
  end.

(** [rand.Shuffle(n, swap)]: for [i] from [n-1] down to [1], swap the
    elements at [i] and at a random index of [[0, i]]. *)
Fixpoint shuffleFrom {A} (i : nat) (l : list A) (g : G) : list A * G :=
  match i with
  | O => (l, g)
  | S i' =>
      let '(j, g') := Intn (Z.of_nat i + 1) g in
      shuffleFrom i' (swap (Z.of_nat i) j l) g'
  end.

Definition Shuffle {A} (n : Z) (l : list A) (g : G) : list A * G :=
  shuffleFrom (Z.to_nat (n - 1)) l g.

(** The loop that fills the label, [n] characters to go. The index
    [sel] is within the slice because [rand.Int()] is not negative. *)
Fixpoint fillLabel (n : nat) (ldh : list ascii) (ldhLen : Z)
    (newlabel : string) (g : G) : string * G :=
  match n with
  | O => (newlabel, g)
  | S n' =>
      let '(x, g') := Int g in
      let sel := Z.rem x (ldhLen - 1) in
      let c := nth (Z.to_nat sel) ldh "000"%char in
      fillLabel n' ldh ldhLen (newlabel ++ String c EmptyString) g'
  end.

(** The largest label length [UnlikelyName] allows under [sub]. *)
Definition maxLabelLenFor (sub : string) : Z :=
  let l := MaxDNSNameLen - (len sub + 1) in
  if MaxLabelLen <? l then MaxLabelLen
  else if l <? MinLabelLen then MinLabelLen
  else l.

(** The label before it is trimmed. *)
Definition rawLabel (sub : string) (g : G) : string * G :=
  let ldh := list_ascii_of_string LDHChars in
  let ldhLen := Z.of_nat (length ldh) in
  let l := maxLabelLenFor sub in
  let '(ldh, g) := Shuffle ldhLen ldh g in
  let '(k, g) := Intn ((l - MinLabelLen) + 1) g in
  let l := MinLabelLen + k in
  fillLabel (Z.to_nat l) ldh ldhLen EmptyString g.

Definition UnlikelyName (sub : string) (g : G) : string * G :=
  let '(newlabel, g) := rawLabel sub g in
  let newlabel := Trim newlabel "-" in
  if String.eqb newlabel EmptyString then (newlabel, g)
  else (newlabel ++ "." ++ sub, g).

End WithRand.

(** ** Record data sets *)

Section WithKey.
Context `{Key}.

(** The scratch set both helpers build: the data of the answers, trimmed of
    dots. *)
Definition recordData (ans : list ExtractedAnswer) : gset string :=
  fold_left (fun records a => Insert (Trim (Data a) ".") records) ans New.

Definition intersectRecordData (set : gset string) (ans : list ExtractedAnswer)
    : gset string :=
  Intersect set (recordData ans).

Definition insertRecordData (set : gset string) (ans : list ExtractedAnswer)
    : gset string :=
  Union set (recordData ans).

(** ** [respMatchesWildcard] *)

Context `{Extractor}.

Definition respMatchesWildcard (w : wildcard) (resp : Msg) : bool :=
  if Detected w then
    if (Z.of_nat (length (Answers w)) =? 0) || (Z.of_nat (length (Answer resp)) =? 0)
    then Detected w
    else
      let set := New in
      let set := insertRecordData set (ExtractAnswers resp) in
      let set := intersectRecordData set (Answers w) in
      if 0 <? Len set then Detected w else false
  else false.

End WithKey.

(** ** The detector *)

Section WithWorld.
Context {G N : Type} `{RandSource G} `{Detector N} `{Pool G} `{Key} `{Extractor}.

Abbreviation Resolvers := (Resolvers G N).

Definition getDetectionResolver (r : Resolvers) : option resolver := detector r.

Definition getWildcard (r : Resolvers) (sub : string) : option wildcard :=
  wildcards r !! sub.

Definition setWildcard (r : Resolvers) (sub : string) (w : wildcard) : Resolvers :=
  set_wildcards r (<[sub := w]> (wildcards r)).

(** [SetDetectionResolver]: the error, if any, and the pool. *)
Definition SetDetectionResolver (r : Resolvers) (qps : Z) (addr : string)
    : option string * Resolvers :=
  match AddResolvers qps addr (pool r) with
  | (Some err, p) => (Some err, set_pool r p)
  | (None, p) =>
      let r := set_pool r p in
      let addr := if SplitHostPortFails addr then JoinHostPort addr "53" else addr in
      match searchList addr (pool r) with
      | Some res => (None, set_detector r (Some res))
      | None => (Some "failed to add the wildcard detection resolver", r)
      end
  end.

Definition goodDetector (r : Resolvers) : bool * Resolvers :=
  match getDetectionResolver r with
  | None =>
      let '(d, g) := randResolver (pool r) (rng r) in
      let r := set_rng r g in
      match d with
      | None => (false, r)
      | Some d =>
          match SetDetectionResolver r (qps d) (raddress d) with
          | (Some _, r) => (false, r)
          | (None, r) => (true, r)
          end
      end
  | Some _ => (true, r)
  end.

(** The loop of [makeQueryAttempts], [n] attempts to go. *)
Fixpoint queryAttempts (n : nat) (d : resolver) (name : string) (qtype : Z)
    (nt : N) : list ExtractedAnswer * N :=
  match n with
  | O => ([], nt)
  | S n' =>
      let '(resp, nt') := query d name qtype nt in
      if (Rcode resp =? RcodeSuccess) && (0 <? Z.of_nat (length (Answer resp)))
      then (ExtractAnswers resp, nt')
      else queryAttempts n' d name qtype nt'
  end.

Definition makeQueryAttempts (r : Resolvers) (name : string) (qtype : Z)
    : outcome (list ExtractedAnswer * Resolvers) :=
  match getDetectionResolver r with
  | None => Panic "nil pointer dereference"
  | Some d =>
      let '(a, nt) := queryAttempts (Z.to_nat maxQueryAttempts) d name qtype (net r) in
      Returned (a, set_net r nt)
  end.

(** The loop that asks for unlikely names until one is not empty; the
    source puts no bound on it, the model gives it [fuel] tries. *)
Fixpoint unlikelyLoop (fuel : nat) (sub : string) (g : G) : outcome (string * G) :=
  match fuel with
  | O => OutOfFuel
  | S fuel' =>
      let '(name, g') := UnlikelyName sub g in
      if negb (String.eqb name EmptyString) then Returned (name, g')
      else unlikelyLoop fuel' sub g'
  end.

(** The loop over [wildcardQueryTypes] within one round. *)
Fixpoint queryTypes (types : list Z) (name : string) (detected : bool)
    (ans : list ExtractedAnswer) (r : Resolvers)
    : outcome (bool * list ExtractedAnswer * Resolvers) :=
  match types with
  | [] => Returned (detected, ans, r)
  | t :: rest =>
      '(a, r') ← makeQueryAttempts r name t;
      if 0 <? Z.of_nat (length a)
      then queryTypes rest name true (ans ++ a)%list r'
      else queryTypes rest name detected ans r'
  end.

(** One round of the probe up to the point where [ans] is complete: the
    flag [detected], the answers [ans] of the round and the pool. *)
Definition probeRound (fuel : nat) (sub : string) (detected : bool) (r : Resolvers)
    : outcome (bool * list ExtractedAnswer * Resolvers) :=
  '(name, g) ← unlikelyLoop fuel sub (rng r);
  queryTypes wildcardQueryTypes name detected [] (set_rng r g).

(** The loop over the rounds: [n] rounds to go, [i] the index of the next
    one. *)
Fixpoint probeRounds (n : nat) (i : Z) (fuel : nat) (sub : string)
    (detected : bool) (answers : list ExtractedAnswer) (set : gset string)
    (r : Resolvers)
    : outcome (bool * list ExtractedAnswer * gset string * Resolvers) :=
  match n with
  | O => Returned (detected, answers, set, r)
  | S n' =>
      '(detected', ans, r') ← probeRound fuel sub detected r;
      let set' := if i =? 0 then insertRecordData set ans
                  else intersectRecordData set ans in
      probeRounds n' (i + 1) fuel sub detected' (answers ++ ans)%list set' r'
  end.

(** The loop that builds [final]. The assignment to [a.Data] writes through
    the pointer, so the answer that is kept is the trimmed one. *)
Fixpoint commonAnswers (answers : list ExtractedAnswer) (set already : gset string)
    (final : list ExtractedAnswer) : list ExtractedAnswer :=
  match answers with
  | [] => final
  | a :: rest =>
      let a := with_Data a (Trim (Data a) ".") in
      if Has (Data a) set && negb (Has (Data a) already)
      then commonAnswers rest set (Insert (Data a) already) (final ++ [a])%list
      else commonAnswers rest set already final
  end.

Definition wildcardTest (fuel : nat) (r : Resolvers) (sub : string)
    : outcome (bool * list ExtractedAnswer * Resolvers) :=
  '(detected, answers, set, r) ←
    probeRounds (Z.to_nat numOfWildcardTests) 0 fuel sub false [] New r;
  let final := commonAnswers answers set New [] in
  if detected : bool then
    match detector r with
    | None => Panic "nil pointer dereference"
    | Some d =>
        let line := "DNS wildcard detected: Resolver " ++ raddress d ++ ": "
                    ++ ("*." ++ sub) in
        Returned (detected, final, set_log r (log r ++ [line])%list)
    end
  else Returned (detected, final, r).

(** ** [testIPsAcrossLevels] *)

(** The loop over the levels, [n] of them to go, [i] the index of the
    next one; leaving the recursion is the [break]. *)
Fixpoint levelsLoop (n : nat) (i : Z) (r : Resolvers) (labels : list string)
    (records : gset string) : gset string :=
  match n with
  | O => records
  | S n' =>
      match getWildcard r (Join (sliceFrom labels i)) with
      | None => records
      | Some w =>
          if Z.of_nat (length (Answers w)) =? 0 then records
          else
            levelsLoop n' (i + 1) r labels
              (if i =? 1 then insertRecordData records (Answers w)
               else intersectRecordData records (Answers w))
      end
  end.

Definition testIPsAcrossLevels (r : Resolvers) (name domain : string) : bool :=
  let base := Z.of_nat (length (Split domain)) in
  let labels := Split (ToLower name) in
  if (Z.of_nat (length labels) <=? base) || (Z.of_nat (length labels) - base <? 3)
  then false
  else
    let l := Z.of_nat (length labels) - base in
    let records := levelsLoop (Z.to_nat l) 1 r labels New in
    0 <? Len records.

(** ** [WildcardDetected] *)

(** The body of the loop for the suffix [sub]: whether the response
    matches there, and the pool. *)
Definition checkLevel (fuel : nat) (resp : Msg) (sub : string) (r : Resolvers)
    : outcome (bool * Resolvers) :=
  '(w, r) ←
    match getWildcard r sub with
    | Some w => Returned (w, r)
    | None =>
        let w := {| Detected := false; Answers := [] |} in
        let r := setWildcard r sub w in
        '(detected, answers, r) ← wildcardTest fuel r sub;
        let w := {| Detected := detected; Answers := answers |} in
        Returned (w, setWildcard r sub w)
    end;
  Returned (respMatchesWildcard w resp, r).

(** The loop [for i := len(labels) - base; i >= 0; i--], entered with
    [i + 1 = n]. *)
Fixpoint detectLoop (n : nat) (fuel : nat) (resp : Msg) (labels : list string)
    (r : Resolvers) : outcome (bool * Resolvers) :=
  match n with
  | O => Returned (false, r)
  | S i =>
      let sub := Join (sliceFrom labels (Z.of_nat i)) in
      '(matched, r') ← checkLevel fuel resp sub r;
      if matched : bool then Returned (true, r')
      else detectLoop i fuel resp labels r'
  end.

Definition WildcardDetected (fuel : nat) (r : Resolvers) (resp : Msg)
    (domain : string) : outcome (bool * Resolvers) :=
  let '(good, r) := goodDetector r in
  if negb good then Returned (false, r)
  else
    match Questions resp with
    | [] => Panic "index out of range"
    | q :: _ =>
        let name := ToLower (RemoveLastDot (QName q)) in
        let domain := ToLower (RemoveLastDot domain) in
        let base := Z.of_nat (length (Split domain)) in
        let labels := Split name in
        let labels := if base <? Z.of_nat (length labels)
                      then sliceFrom labels 1 else labels in
        '(matched, r) ←
          detectLoop (Z.to_nat (Z.of_nat (length labels) - base + 1))
                     fuel resp labels r;
        if matched : bool then Returned (true, r)
        else Returned (testIPsAcrossLevels r name domain, r)
    end.

(** ** The walks in the words of the specification *)

(** The name of [labels] without its first [j] labels. *)
Definition strip (labels : list string) (j : nat) : string := Join (drop j labels).

(** Sections 4.5 (3): the suffixes are taken in the order given; at each
    the state is looked up or created and the response tested; the first
    match ends the walk. *)
Fixpoint walkSuffixes (fuel : nat) (resp : Msg) (subs : list string)
    (r : Resolvers) : outcome (bool * Resolvers) :=
  match subs with
  | [] => Returned (false, r)
  | sub :: rest =>
      '(matched, r') ← checkLevel fuel resp sub r;
      if matched : bool then Returned (true, r')
      else walkSuffixes fuel resp rest r'
  end.

(** The suffixes from the one that has as many labels as the base domain
    to the one a label short of the name, innermost first; there is none
    when the name has no more labels than the base domain. *)
Definition suffixesBelow (labels : list string) (base : nat) : list string :=
  map (strip labels) (rev (seq 1 (length labels - base))).

(** Sections 4.5 (1) to (4) read to the letter: the suffixes are those of
    [suffixesBelow] whatever the number of labels of the name. *)
Definition specWildcardDetected (fuel : nat) (r : Resolvers) (resp : Msg)
    (domain : string) : outcome (bool * Resolvers) :=
  let '(good, r) := goodDetector r in
  if negb good then Returned (false, r)
  else
    match Questions resp with
    | [] => Panic "index out of range"
    | q :: _ =>
        let name := ToLower (RemoveLastDot (QName q)) in
        let domain := ToLower (RemoveLastDot domain) in
        let subs := suffixesBelow (Split name) (length (Split domain)) in
        '(matched, r) ← walkSuffixes fuel resp subs r;
        if matched : bool then Returned (true, r)
        else Returned (testIPsAcrossLevels r name domain, r)
    end.

(** Section 4.6: the levels are taken in the order given; a level without
    a state or without answers ends the walk; the first level seeds the
    records and every further one is intersected with them. *)
Fixpoint walkLevels (r : Resolvers) (subs : list string) (seed : bool)
    (records : gset string) : gset string :=
  match subs with
  | [] => records
  | sub :: rest =>
      match getWildcard r sub with
      | None => records
      | Some w =>
          match Answers w with
          | [] => records
          | _ =>
              walkLevels r rest false
                (if seed then insertRecordData records (Answers w)
                 else intersectRecordData records (Answers w))
          end
      end
  end.

(** The record data of a level, when the level has a state with
    answers. *)
Definition levelData (r : Resolvers) (sub : string) : option (gset string) :=
  match getWildcard r sub with
  | None => None
  | Some w =>
      match Answers w with
      | [] => None
      | _ => Some (recordData (Answers w))
      end
  end.

(** The record data of the levels up to the first one that has no state or
    no answers. *)
Fixpoint levelsUsed (r : Resolvers) (subs : list string) : list (gset string) :=
  match subs with
  | [] => []
  | sub :: rest =>
      match levelData r sub with
      | None => []
      | Some d => d :: levelsUsed r rest
      end
  end.

(** The levels in the order of the source: the name without its first
    label, without its first two, and so on down to the suffix that has as
    many labels as the base domain. *)
Definition levelsInward (labels : list string) (base : nat) : list string :=
  map (strip labels) (seq 1 (length labels - base)).

(** The levels in the order of section 4.6: from depth 1, one label above
    the base, outward to the full depth, the name itself. *)
Definition levelsOutward (labels : list string) (base : nat) : list string :=
  map (strip labels) (rev (seq 0 (length labels - base))).

(** Section 4.6 read to the letter. *)
Definition specTestIPsAcrossLevels (r : Resolvers) (name domain : string) : bool :=
  let base := length (Split domain) in
  let labels := Split (ToLower name) in
  if (length labels <? base + 3)%nat then false
  else 0 <? Len (walkLevels r (levelsOutward labels base) true New).

End WithWorld.

End Wildcards.

(** * A bench: values and instances the model is run on *)

Module Bench.
Import Time Dns GoStrings Engine.

(** One choice of the package's constants: the retry codes are REFUSED,
    SERVFAIL and NOTIMP. *)
Definition decls : PackageDecls :=
  {| RetryCodes := [5; 2; 4];
     TimeoutRcode := 101;
     ResolverErrRcode := 100;
     RcodeToString := itoa;
     PriorityCritical := 3;
     PriorityHigh := 2;
     PriorityNormal := 1;
     PriorityLow := 0 |}.

Definition resolver0 : baseResolver :=
  {| stopped := false; rlimit := {| rate := 100 |}; xchgQueue := [];
     xchgs := []; readMsgs := []; address := "192.0.2.1:53"; perSec := 100;
     delivered := [] |}.

Definition query0 : Msg :=
  {| Id := 7; Rcode := 0; Truncated := false;
     Questions := [{| QName := "www.domain.com."; Qtype := 1 |}]; Answer := [] |}.

Definition request0 : resolveRequest :=
  {| ID := 7; Name := "www.domain.com"; ReqQtype := 1; ReqMsg := Some query0;
     Timestamp := 1000; Result := 0%nat |}.

(** A SERVFAIL reply, a truncated reply and a full reply to [query0]. *)
Definition servfail0 : Msg :=
  {| Id := 7; Rcode := 2; Truncated := false;
     Questions := Questions query0; Answer := [] |}.

Definition answer0 : list RR :=
  [{| RRName := "www.domain.com."; Rrtype := 1; Rdata := "192.168.1.14" |}].

Definition truncated0 : Msg :=
  {| Id := 7; Rcode := 0; Truncated := true;
     Questions := Questions query0; Answer := [] |}.

Definition reply0 : Msg :=
  {| Id := 7; Rcode := 0; Truncated := false;
     Questions := Questions query0; Answer := answer0 |}.

(** A TCP exchange that succeeds with [reply0]. *)
Definition tcpOk : exchanger := fun _ _ _ => (Some reply0, None).

(** Five arrivals 190476190 ns apart, and five at the same instant. *)
Definition evenSamples : list Time :=
  [0; 190476190; 380952380; 571428570; 761904760].

Definition sameSamples : list Time := [5000; 5000; 5000; 5000; 5000].

(** A burst is being sampled since instant 1000; six arrivals are in the
    buffer, the last update was at 2000, and the request of [reply0] went
    out at 3000. *)
Definition sampler0 : sampler :=
  {| responseTimes := [4000; 5000; 6000; 7000; 8000; 9000];
     collect := 1000; stoppedAt := 0; last := 2000 |}.

Definition request1 : resolveRequest :=
  {| ID := 7; Name := "www.domain.com"; ReqQtype := 1; ReqMsg := Some query0;
     Timestamp := 3000; Result := 0%nat |}.

Definition resolver1 : baseResolver :=
  {| stopped := false; rlimit := {| rate := 100 |}; xchgQueue := [];
     xchgs := [request1]; readMsgs := []; address := "192.0.2.1:53";
     perSec := 100; delivered := [] |}.

(** The reply arrives ten seconds after the zero instant. *)
Definition observed0 : observed :=
  {| measured := None; nowMeasured := 0; readMsgResult := Some reply0;
     rtime := 10 * Second; nowUpdate := 10 * Second + 1 |}.

(** The same buffer after the burst: sampling ended at 3500, and the
    request went out at 3600. *)
Definition sampler1 : sampler :=
  {| responseTimes := [4000; 5000; 6000; 7000; 8000; 9000];
     collect := 0; stoppedAt := 3500; last := 2000 |}.

Definition request2 : resolveRequest :=
  {| ID := 7; Name := "www.domain.com"; ReqQtype := 1; ReqMsg := Some query0;
     Timestamp := 3600; Result := 0%nat |}.

Definition resolver2 : baseResolver :=
  {| stopped := false; rlimit := {| rate := 100 |}; xchgQueue := [];
     xchgs := [request2]; readMsgs := []; address := "192.0.2.1:53";
     perSec := 100; delivered := [] |}.

End Bench.

(** ** The server of [TestWildcardDetected] *)

Module TestBench.
Import Dns GoStrings StringSet Wildcards.

(** Elements are stored in lowercase. *)
#[export] Instance lowerKey : Key := {| setKey := ToLower |}.

(** Every record of the answer section is kept, its owner name
    canonical. *)
#[export] Instance extractAll : Extractor :=
  {| ExtractAnswers := fun m =>
       map (fun rr => {| AnsName := ToLower (RemoveLastDot (RRName rr));
                         AnsType := Rrtype rr; Data := Rdata rr |})
           (Answer m) |}.

(** A source that replays a list of draws, and draws 0 once the list is
    used up. *)
#[export] Instance replay : RandSource (list Z) :=
  {| Intn := fun n g =>
       match g with
       | [] => (0, [])
       | x :: g' => (x mod n, g')
       end;
     Int := fun g =>
       match g with
       | [] => (0, [])
       | x :: g' => (x mod 2 ^ 63, g')
       end |}.

(** [wildcardHandler] of the test file, for the query name [name] (without
    the final dot). The state of the network counts the queries. *)
Definition wildcardHandler (name : string) (qtype : Z) : Msg :=
  let fqdn := name ++ "." in
  let addr :=
    if String.eqb fqdn "www.domain.com." then "192.168.1.14"
    else if String.eqb fqdn "ns.wildcard.domain.com." then "192.168.1.2"
    else if HasSuffix fqdn ".wildcard.domain.com." then "192.168.1.64"
    else EmptyString in
  let question := [{| QName := fqdn; Qtype := qtype |}] in
  if String.eqb addr EmptyString then
    {| Id := 0; Rcode := 3; Truncated := false; Questions := question; Answer := [] |}
  else
    {| Id := 0; Rcode := 0; Truncated := false; Questions := question;
       Answer := [{| RRName := fqdn; Rrtype := TypeA; Rdata := addr |}] |}.

#[export] Instance localServer : Detector nat :=
  {| query := fun _ name qtype n => (wildcardHandler name qtype, S n) |}.

(** A pool kept as the list of its members; the first one is the one
    drawn. *)
#[export] Instance listPool : Pool (list Z) :=
  {| randResolver := fun l g => (head l, g);
     AddResolvers := fun q addr l =>
       (None,
        if existsb (fun d => String.eqb (raddress d) addr) l then l
        else (l ++ [{| qps := q; raddress := addr |}])%list);
     searchList := fun addr l =>
       List.find (fun d => String.eqb (raddress d) addr) l;
     SplitHostPortFails := fun _ => false;
     JoinHostPort := fun host port => host ++ ":" ++ port |}.

(** The pool of the test: one resolver, no detector chosen yet, nothing
    probed. *)
Definition pool0 : Resolvers (list Z) nat :=
  {| pool := [{| qps := 100; raddress := "127.0.0.1:5353" |}];
     detector := None; wildcards := ∅; rng := []; net := 0%nat; log := [] |}.

(** The same pool once the resolver has been adopted as detector. *)
Definition pool1 : Resolvers (list Z) nat :=
  {| pool := [{| qps := 100; raddress := "127.0.0.1:5353" |}];
     detector := Some {| qps := 100; raddress := "127.0.0.1:5353" |};
     wildcards := ∅; rng := []; net := 0%nat; log := [] |}.

(** A pool that has probed three levels under [example.com]: only
    [b.c.example.com] has a wildcard. *)
Definition pool2 : Resolvers (list Z) nat :=
  {| pool := [{| qps := 100; raddress := "127.0.0.1:5353" |}];
     detector := Some {| qps := 100; raddress := "127.0.0.1:5353" |};
     wildcards :=
       <["b.c.example.com" :=
           {| Detected := true;
              Answers := [{| AnsName := "bbbbbb.b.c.example.com"; AnsType := TypeA;
                             Data := "192.0.2.7" |}] |}]>
         (<["c.example.com" := {| Detected := false; Answers := [] |}]>
            (<["example.com" := {| Detected := false; Answers := [] |}]> ∅));
     rng := []; net := 0%nat; log := [] |}.

(** Draws that leave "-" first in the shuffled characters, ask for the
    shortest label and then pick the first character every time. *)
Definition dashDraws : list Z :=
  0 :: map Z.of_nat (rev (seq 1 35)).

(** A name of 250 bytes: three labels of 63 and one of 58. *)
Fixpoint repeatChar (n : nat) (c : ascii) : string :=
  match n with
  | O => EmptyString
  | S n' => String c (repeatChar n' c)
  end.

Definition longSub : string :=
  Join [repeatChar 63 "a"; repeatChar 63 "b"; repeatChar 63 "c"; repeatChar 58 "d"].

(** What a call answered, if it returned. *)
Definition verdict (o : outcome (bool * Resolvers (list Z) nat)) : option bool :=
  match o with
  | Returned (b, _) => Some b
  | _ => None
  end.

(** The response of the test server to an A query. *)
Definition response (name : string) : Msg := wildcardHandler name TypeA.

End TestBench.

(** * The rest of the engine: construction, stopping, [Query] and the
      dispatch loop *)

Module Lifecycle.
Import Time Dns GoStrings Engine.

(** [net.SplitHostPort] (whether it fails) and [net.JoinHostPort]. *)
Class NetDecls := {
  SplitHostPortFails : string -> bool;
  JoinHostPort : string -> string -> string
}.

(** A resolver together with its [done] channel: [doneClosed] tells
    whether the channel has been closed. *)
Record engine := { res : baseResolver; doneClosed : bool }.

(** [close(ch)]: closing a closed channel panics. *)
Definition closeChan (closed : bool) : outcome bool :=
  if closed then Panic "close of closed channel" else Returned true.

Definition set_stopped (r : baseResolver) (b : bool) : baseResolver :=
  {| stopped := b; rlimit := rlimit r; xchgQueue := xchgQueue r;
     xchgs := xchgs r; readMsgs := readMsgs r; address := address r;
     perSec := perSec r; delivered := delivered r |}.

(** [NewBaseResolver]; [dialErr] and [deadlineErr] are the errors, if any,
    of [c.Dial] and of [conn.SetReadDeadline]. [None] is the nil
    resolver. *)
Definition NewBaseResolver `{NetDecls} (addr : string) (perSec : Z)
    (dialErr deadlineErr : option string) : option engine :=
  let addr := if SplitHostPortFails addr then JoinHostPort addr "53" else addr in
  if perSec <=? 0 then None
  else
    match dialErr with
    | Some _ => None
    | None =>
        match deadlineErr with
        | Some _ => None
        | None =>
            Some {| res := {| stopped := false; rlimit := {| rate := perSec |};
                              xchgQueue := []; xchgs := []; readMsgs := [];
                              address := addr; perSec := perSec;
                              delivered := [] |};
                    doneClosed := false |}
        end
    end.

(** [Stop]. *)
Definition Stop (e : engine) : outcome engine :=
  closed ← (if negb (stopped (res e)) then closeChan (doneClosed e)
            else Returned (doneClosed e));
  Returned {| res := set_stopped (res e) true; doneClosed := closed |}.

(** [Stopped]. *)
Definition Stopped (e : engine) : bool := stopped (res e).

(** [String]. *)
Definition String_ (e : engine) : string := address (res e).

(** The link between the flag and the channel that [Stop] relies on: the
    channel is closed exactly when the flag is set. *)
Definition lifecycle_ok (e : engine) : Prop :=
  doneClosed e = stopped (res e).

(** The limiter can be built: its rate and the configured rate are
    positive. *)
Definition rate_ok (r : baseResolver) : Prop :=
  0 < rate (rlimit r) /\ 0 < perSec r.

(** ** The dispatch loop *)

(** [xchgQueue.Next()] of github.com/caffix/queue: the oldest element of
    the highest priority that has one, and the queue without it. *)
Definition priorityRank (p : queuePriority) : nat :=
  match p with
  | QueuePriorityCritical => 3
  | QueuePriorityHigh => 2
  | QueuePriorityNormal => 1
  | QueuePriorityLow => 0
  end.

Fixpoint removeFirst (p : queuePriority)
    (q : list (resolveRequest * queuePriority))
    : option (resolveRequest * list (resolveRequest * queuePriority)) :=
  match q with
  | [] => None
  | (req, p') :: rest =>
      if Nat.eqb (priorityRank p') (priorityRank p) then Some (req, rest)
      else
        match removeFirst p rest with
        | Some (found, rest') => Some (found, (req, p') :: rest')
        | None => None
        end
  end.

Definition queueNext (q : list (resolveRequest * queuePriority))
    : option (resolveRequest * list (resolveRequest * queuePriority)) :=
  match removeFirst QueuePriorityCritical q with
  | Some x => Some x
  | None =>
      match removeFirst QueuePriorityHigh q with
      | Some x => Some x
      | None =>
          match removeFirst QueuePriorityNormal q with
          | Some x => Some x
          | None => removeFirst QueuePriorityLow q
          end
      end
  end.

(** The local variables of [sendQueries]. *)
Record dispatcher := { lastSent : Time; measuring : bool }.

Definition initDispatcher : dispatcher :=
  {| lastSent := zero; measuring := false |}.

(** What one iteration of [sendQueries] observes once the rate limiter
    has let it pass: the clock, the errors of the two calls on the
    connection and the instant the table stamps the request with. *)
Record dispatched := {
  sendNow : Time;
  sendDeadlineErr : option string;
  sendWriteErr : option string;
  sendStamp : Time
}.

(** One iteration of [sendQueries] (the [Signal] branch): the resolver,
    the local variables and what has been sent on [r.measure]. *)
Definition sendQueriesIter `{PackageDecls} (r : baseResolver) (d : dispatcher)
    (o : dispatched) : baseResolver * dispatcher * list Time :=
  match queueNext (xchgQueue r) with
  | None => (r, d, [])
  | Some (req, rest) =>
      let r1 := set_xchgQueue r rest in
      let now := sendNow o in
      let l := Z.of_nat (length (xchgQueue r1)) in
      let '(m, signals) :=
        if negb (measuring d) && (0 <? l) then (true, [now])
        else if measuring d && (l =? 0)
                && (maxDelayBetweenSamples <? Sub now (lastSent d))
        then (false, [zero])
        else (measuring d, []) in
      (writeMessage r1 (sendDeadlineErr o) (sendWriteErr o) (sendStamp o) req,
       {| lastSent := now; measuring := m |}, signals)
  end.

(** A run of the loop over the observations of its iterations. *)
Fixpoint sendQueriesRun `{PackageDecls} (r : baseResolver) (d : dispatcher)
    (obs : list dispatched) : baseResolver * dispatcher * list Time :=
  match obs with
  | [] => (r, d, [])
  | o :: rest =>
      let '(r1, d1, s1) := sendQueriesIter r d o in
      let '(r2, d2, s2) := sendQueriesRun r1 d1 rest in
      (r2, d2, (s1 ++ s2)%list)
  end.

(** The signals on [r.measure] take turns: a begin (an instant that is not
    zero) when [expectBegin], then an end (the zero instant), and so
    on. *)
Fixpoint alternating (expectBegin : bool) (signals : list Time) : Prop :=
  match signals with
  | [] => True
  | t :: rest =>
      (if expectBegin then IsZero t = false else IsZero t = true) /\
      alternating (negb expectBegin) rest
  end.

(** A run of the [responses] loop over the observations of its
    iterations: the resolver, the sampler and the arguments of the
    [calcNewRate] goroutines started, oldest first. *)
Fixpoint responsesRun (r : baseResolver) (s : sampler) (obs : list observed)
    : baseResolver * sampler * list (list Time) :=
  match obs with
  | [] => (r, s, [])
  | o :: rest =>
      let '(r1, s1, g1) := responsesIter r s o in
      let '(r2, s2, g2) := responsesRun r1 s1 rest in
      (r2, s2, (g1 ++ g2)%list)
  end.

(** The arrival times read by the iterations never go back, and none is
    before [t]. *)
Fixpoint clockMonotone (t : Time) (obs : list observed) : Prop :=
  match obs with
  | [] => True
  | o :: rest => t <= rtime o /\ clockMonotone (rtime o) rest
  end.

(** The samples are in the order of arrival: none is before its
    predecessor. *)
Fixpoint ascending (times : list Time) : Prop :=
  match times with
  | [] => True
  | t :: rest =>
      match rest with
      | [] => True
      | u :: _ => t <= u /\ ascending rest
      end
  end.

(** ** [Query] *)

(** Go's [error] as [Query] returns it: a [*ResolveError], or the error of
    [checkContext], which is defined outside the two source files. *)
Inductive goError :=
| IsResolveError (e : ResolveError)
| ContextError (msg : string).

(** The caller's retry policy; [None] is the nil function. *)
Definition Retry := Z -> Z -> Msg -> bool.

(** What one turn of the loop of [Query] meets: the error of
    [checkContext], if any, and for [queueQuery] the fresh result channel,
    the ids the table may try and the branch its [select] takes. *)
Record attempt := {
  ctxErr : option string;
  attemptChan : nat;
  attemptIds : list Z;
  attemptSel : selected
}.

(** The same turn with the retryable flag of the result it receives set
    by [f]. *)
Definition reflag (f : resolveResult -> bool) (a : attempt) : attempt :=
  {| ctxErr := ctxErr a; attemptChan := attemptChan a;
     attemptIds := attemptIds a;
     attemptSel :=
       match attemptSel a with
       | CtxDone => CtxDone
       | FromResultChan res =>
           FromResultChan {| ResMsg := ResMsg res; Again := f res;
                             ResErr := ResErr res |}
       end |}.

Definition with_Rcode (m : Msg) (rcode : Z) : Msg :=
  {| Id := Id m; Rcode := rcode; Truncated := Truncated m;
     Questions := Questions m; Answer := Answer m |}.

Definition with_ReqMsg (req : resolveRequest) (m : Msg) : resolveRequest :=
  {| ID := ID req; Name := Name req; ReqQtype := ReqQtype req; ReqMsg := Some m;
     Timestamp := Timestamp req; Result := Result req |}.

(** The requests that [Query] has made hold the pointer [msg]: a write
    through the pointer shows in every one of them. [chans] are the result
    channels of those requests. *)
Definition aliasReq (chans : list nat) (m : Msg) (req : resolveRequest)
    : resolveRequest :=
  if existsb (Nat.eqb (Result req)) chans then with_ReqMsg req m else req.

Definition writeThrough (chans : list nat) (m : Msg) (r : baseResolver)
    : baseResolver :=
  {| stopped := stopped r; rlimit := rlimit r;
     xchgQueue := map (fun '(req, p) => (aliasReq chans m req, p)) (xchgQueue r);
     xchgs := map (aliasReq chans m) (xchgs r);
     readMsgs := map (fun rd => {| Req := aliasReq chans m (Req rd);
                                   Resp := Resp rd |}) (readMsgs r);
     address := address r; perSec := perSec r; delivered := delivered r |}.

(** What [Query] hands back: the response, the error, and with them the
    resolver and the caller's message as the call leaves them. *)
Record queryResult := {
  qResp : option Msg;
  qErr : option goError;
  qResolver : baseResolver;
  qMsg : Msg;
  qTimes : Z
}.

Section WithDecls.
Context `{PackageDecls}.

Definition validPriority (p : Z) : bool :=
  (p =? PriorityCritical) || (p =? PriorityHigh)
  || (p =? PriorityNormal) || (p =? PriorityLow).

(** The loop [for again] of [Query], entered with [again] true. It has no
    bound of its own: the model runs it over the turns it is given. *)
Fixpoint queryLoop (attempts : list attempt) (retry : option Retry)
    (r : baseResolver) (msg : Msg) (p : Z) (chans : list nat) (times : Z)
    (resp : option Msg) : outcome queryResult :=
  match attempts with
  | [] => OutOfFuel
  | a :: rest =>
      match ctxErr a with
      | Some e =>
          Returned {| qResp := resp; qErr := Some (ContextError e);
                      qResolver := r; qMsg := msg; qTimes := times |}
      | None =>
          let times := times + 1 in
          '(result, r) ← queueQuery r msg p (attemptChan a) (attemptIds a)
                           (attemptSel a);
          let chans := attemptChan a :: chans in
          let resp := ResMsg result in
          match ResErr result, retry with
          | None, _ =>
              Returned {| qResp := resp; qErr := None; qResolver := r;
                          qMsg := msg; qTimes := times |}
          | Some e, None =>
              Returned {| qResp := resp; qErr := Some (IsResolveError e);
                          qResolver := r; qMsg := msg; qTimes := times |}
          | Some e, Some policy =>
              let rcode := ErrRcode e in
              let '(shown, msg, r) :=
                match ResMsg result with
                | Some m => (m, msg, r)
                | None =>
                    let msg := with_Rcode msg rcode in
                    (msg, msg, writeThrough chans msg r)
                end in
              if policy times p shown
              then queryLoop rest retry r msg p chans times resp
              else Returned {| qResp := resp; qErr := Some (IsResolveError e);
                               qResolver := r; qMsg := msg; qTimes := times |}
          end
      end
  end.

Definition Query (e : engine) (attempts : list attempt) (msg : Msg) (p : Z)
    (retry : option Retry) : outcome queryResult :=
  if negb (validPriority p) then
    Returned {| qResp := None;
                qErr := Some (IsResolveError
                                {| Err := "Resolver: Invalid priority parameter: "
                                          ++ itoa p;
                                   ErrRcode := ResolverErrRcode |});
                qResolver := res e; qMsg := msg; qTimes := 0 |}
  else if Stopped e then
    Returned {| qResp := None;
                qErr := Some (IsResolveError
                                {| Err := "Resolver: " ++ String_ e
                                          ++ " has been stopped";
                                   ErrRcode := ResolverErrRcode |});
                qResolver := res e; qMsg := msg; qTimes := 0 |}
  else queryLoop attempts retry (res e) msg p [] 0 None.

End WithDecls.
End Lifecycle.

(** ** More of the bench *)

Module MoreBench.
Import Time Dns GoStrings Engine Lifecycle.

(** An address has a port when it has a colon. *)
Fixpoint hasColon (s : string) : bool :=
  match s with
  | EmptyString => false
  | String c s' => Ascii.eqb c ":" || hasColon s'
  end.

#[export] Instance netDecls : NetDecls :=
  {| SplitHostPortFails := fun addr => negb (hasColon addr);
     JoinHostPort := fun host port => host ++ ":" ++ port |}.

(** Two requests wait in the queue of [resolver3], both in the table. *)
Definition request3 : resolveRequest :=
  {| ID := 8; Name := "ns.domain.com"; ReqQtype := 1; ReqMsg := Some Bench.query0;
     Timestamp := 0; Result := 1%nat |}.

Definition resolver3 : baseResolver :=
  {| stopped := false; rlimit := {| rate := 100 |};
     xchgQueue := [(Bench.request0, QueuePriorityLow);
                   (request3, QueuePriorityCritical)];
     xchgs := [Bench.request0; request3]; readMsgs := [];
     address := "192.0.2.1:53"; perSec := 100; delivered := [] |}.

(** Two dispatches half a second apart, both written without error. *)
Definition dispatch0 : list dispatched :=
  [{| sendNow := 1 * Second; sendDeadlineErr := None; sendWriteErr := None;
      sendStamp := 1 * Second + 10 |};
   {| sendNow := 1 * Second + 500 * Millisecond; sendDeadlineErr := None;
      sendWriteErr := None; sendStamp := 1 * Second + 500 * Millisecond + 10 |}].

(** Two reads wait in the read queue of [resolver4]: a SERVFAIL and a
    truncated reply. *)
Definition resolver4 : baseResolver :=
  {| stopped := false; rlimit := {| rate := 100 |}; xchgQueue := [];
     xchgs := [];
     readMsgs := [{| Req := Bench.request0; Resp := Bench.servfail0 |};
                  {| Req := request3; Resp := Bench.truncated0 |}];
     address := "192.0.2.1:53"; perSec := 100; delivered := [] |}.

(** The engine around [resolver0], running. *)
Definition engine0 : engine := {| res := Bench.resolver0; doneClosed := false |}.

(** A policy that allows two retries. *)
Definition retryTwice : Retry := fun times _ _ => times <? 3.

(** Three turns of [Query]: the table times the request out twice, then the
    answer comes. *)
Definition timedOut : resolveResult :=
  {| ResMsg := None; Again := true;
     ResErr := Some {| Err := "timed out"; ErrRcode := 101 |} |}.

Definition answered : resolveResult :=
  {| ResMsg := Some Bench.reply0; Again := false; ResErr := None |}.

Definition attempts0 : list attempt :=
  [{| ctxErr := None; attemptChan := 10%nat; attemptIds := [];
      attemptSel := FromResultChan timedOut |};
   {| ctxErr := None; attemptChan := 11%nat; attemptIds := [];
      attemptSel := FromResultChan timedOut |};
   {| ctxErr := None; attemptChan := 12%nat; attemptIds := [];
      attemptSel := FromResultChan answered |}].

(** A server that answers as the test server does for its first three
    queries, and with NXDOMAIN from then on. *)
Definition flakyServer : Wildcards.Detector nat :=
  {| Wildcards.query := fun _ name qtype n =>
       if (n <? 3)%nat then (TestBench.wildcardHandler name qtype, S n)
       else ({| Id := 0; Rcode := 3; Truncated := false;
                Questions := [{| QName := name ++ "."; Qtype := qtype |}];
                Answer := [] |}, S n) |}.

End MoreBench.

(** * Proofs: the query engine *)

Module EngineSpec.
Import Time Dns GoStrings Engine.

(** ** Arithmetic of [calcNewRate] *)

Lemma wrap64_small (z : Z) : minInt64 <= z <= maxInt64 -> wrap64 z = z.
Proof.
  unfold wrap64, minInt64, maxInt64. intros Hz.
  rewrite Z.mod_small; lia.
Qed.

Lemma Sub_exact (t u : Time) :
  minInt64 <= t - u <= maxInt64 -> Sub t u = t - u.
Proof.
  unfold Sub. intros Hz.
  destruct (Z.ltb_spec maxInt64 (t - u)); [lia |].
  destruct (Z.ltb_spec (t - u) minInt64); [lia | reflexivity].
Qed.

Lemma last_cons_default {A} (l : list A) (x d : A) :
  List.last (x :: l) d = List.last l x.
Proof.
  revert x d. induction l as [| y l IH]; intros x d; [reflexivity |].
  change (List.last (x :: y :: l) d) with (List.last (y :: l) d).
  change (List.last (y :: l) x) with (List.last (y :: l) x).
  now rewrite !IH.
Qed.

(** Within such a window the gaps telescope: no difference saturates and
    no partial sum wraps. *)
Lemma sumGaps_telescope (lo : Z) (times : list Time) :
  forall (i : Z) (first prev : Time),
    0 < i -> inWindow lo first -> inWindow lo prev ->
    Forall (inWindow lo) times ->
    sumGaps i prev (prev - first) times = List.last times prev - first.
Proof.
  induction times as [| t rest IH]; intros i first prev Hi Hf Hp Hall.
  - reflexivity.
  - inversion Hall as [| ? ? Ht Hrest]; subst.
    cbn [sumGaps].
    destruct (Z.ltb_spec 0 i) as [_ | Hle]; [| lia].
    unfold inWindow in *.
    rewrite Sub_exact by (unfold minInt64, maxInt64; lia).
    replace (prev - first + (t - prev)) with (t - first) by lia.
    rewrite wrap64_small by (unfold minInt64, maxInt64; lia).
    rewrite (IH (i + 1) first t) by (unfold inWindow; auto with zarith).
    now rewrite last_cons_default.
Qed.

Lemma sumGaps_total (lo : Z) (times : list Time) :
  Forall (inWindow lo) times ->
  sumGaps 0 zero 0 times = List.last times 0 - hd 0 times.
Proof.
  destruct times as [| t rest]; intros Hall; [reflexivity |].
  inversion Hall as [| ? ? Ht Hrest]; subst.
  cbn [sumGaps hd]. change (0 <? 0) with false. cbn iota.
  replace 0 with (t - t) at 2 by lia.
  rewrite (sumGaps_telescope lo rest (0 + 1) t t) by (auto; lia).
  now rewrite last_cons_default.
Qed.

(** Up to 53 bits the conversion to [float64] is exact. *)
Lemma float64_of_int64_exact (z : Z) :
  Z.abs z < 2 ^ 53 -> float64_of_int64 z = z.
Proof.
  unfold float64_of_int64. intros Hz.
  destruct (Z.ltb_spec (Z.abs z) (2 ^ 53)); [reflexivity | lia].
Qed.

(** The conversion keeps the sign and at most doubles the magnitude. *)
Lemma float64_of_int64_neg (z : Z) :
  z < 0 -> 2 * z <= float64_of_int64 z <= 0.
Proof.
  intros Hz. unfold float64_of_int64.
  destruct (Z.ltb_spec (Z.abs z) (2 ^ 53)) as [_ | Hbig]; [lia |].
  cbv zeta.
  set (a := Z.abs z) in *.
  set (e := Z.log2 a - 52).
  assert (Ha : 0 < a) by (unfold a; lia).
  assert (Hlog : 53 <= Z.log2 a).
  { apply Z.log2_le_pow2; [lia | exact Hbig]. }
  assert (He : 0 < e) by (unfold e; lia).
  assert (Hpow : 0 < 2 ^ e) by (apply Z.pow_pos_nonneg; lia).
  assert (Hle : 2 ^ e <= a).
  { transitivity (2 ^ Z.log2 a).
    - apply Z.pow_le_mono_r; unfold e; lia.
    - apply Z.log2_spec; lia. }
  pose proof (Z.div_mod a (2 ^ e) ltac:(lia)) as Hdm.
  pose proof (Z.mod_pos_bound a (2 ^ e) Hpow) as Hmod.
  assert (Hq : 0 <= a / 2 ^ e) by (apply Z.div_pos; lia).
  set (q := a / 2 ^ e) in *.
  set (q' := if _ : bool then q + 1 else q).
  assert (Hq' : q <= q' <= q + 1).
  { unfold q'. destruct (_ || _); lia. }
  replace (Z.sgn z) with (-1) by (symmetry; apply Z.sgn_neg; lia).
  assert (Hprod : 0 <= q' * 2 ^ e <= 2 * a) by nia.
  replace z with (- a) by (unfold a; lia). lia.
Qed.

(** The reduction by a quarter, for a positive mean gap of at most a
    second, is rounding three quarters up to whole nanoseconds. *)
Lemma reduce_quarter (a : Z) :
  0 < a <= Second ->
  wrap64 (a - Z.quot (float64_of_int64 a) 4) = (3 * a + 3) / 4.
Proof.
  unfold Second. intros Ha.
  rewrite float64_of_int64_exact by lia.
  rewrite Z.quot_div_nonneg by lia.
  assert (Heq : a - a / 4 = (3 * a + 3) / 4) by (Z.div_mod_to_equations; lia).
  rewrite Heq. apply wrap64_small.
  unfold minInt64, maxInt64. Z.div_mod_to_equations. lia.
Qed.

(** For a negative mean gap the reduced gap stays negative. *)
Lemma reduce_quarter_neg (a : Z) :
  minInt64 <= a < 0 ->
  minInt64 <= wrap64 (a - Z.quot (float64_of_int64 a) 4) < 0.
Proof.
  intros Ha. pose proof (float64_of_int64_neg a ltac:(lia)) as Hf.
  set (f := float64_of_int64 a) in *.
  assert (Hred : a <= a - Z.quot f 4 < 0).
  { Z.quot_rem_to_equations. lia. }
  rewrite wrap64_small by (unfold minInt64, maxInt64 in *; lia).
  lia.
Qed.

Lemma window_hd_last (lo : Z) (times : list Time) :
  times <> [] -> Forall (inWindow lo) times ->
  inWindow lo (hd 0 times) /\ inWindow lo (List.last times 0).
Proof.
  intros Hne Hall. destruct times as [| t rest]; [congruence |].
  inversion Hall as [| ? ? Ht Hrest]; subst. split; [exact Ht |].
  rewrite last_cons_default. clear Hne Hall.
  revert t Ht. induction Hrest as [| u rest Hu Hrest IH]; intros t Ht.
  - exact Ht.
  - rewrite last_cons_default. now apply IH.
Qed.

Lemma clamp_min (avg : Z) : (if Second <? avg then Second else avg) = Z.min avg Second.
Proof. destruct (Z.ltb_spec Second avg); lia. Qed.

Lemma calcNewRate_enough (r : baseResolver) (times : list Time) :
  minSampleSetSize <= Z.of_nat (length times) ->
  calcNewRate r times =
    let avg := Z.min (Z.quot (sumGaps 0 zero 0 times)
                             (Z.of_nat (length times) - 1)) Second in
    let red := wrap64 (avg - Z.quot (float64_of_int64 avg) 4) in
    if red =? 0 then Panic "integer divide by zero"
    else Returned (setRateLimit r (if Z.quot Second red <=? 1 then perSec r
                                   else Z.quot Second red)).
Proof.
  intros Hlen. unfold calcNewRate.
  destruct (Z.ltb_spec (Z.of_nat (length times)) minSampleSetSize); [lia |].
  now rewrite clamp_min.
Qed.

(** C3, as amended. With fewer than [minSampleSetSize] samples
    [calcNewRate] leaves the resolver as it is. With at least that many,
    all within a window of less than [2 ^ 63] ns, let [a] be the mean gap in
    whole nanoseconds, capped at one second: when [a] is positive the rate
    installed is [floor(1 s / ceil(0.75 * a))], the reduction by a quarter
    being cut to whole nanoseconds, unless that is at most 1, in which case
    the configured [perSec] is installed; when [a] is negative, [perSec] is
    installed. *)
Theorem calcNewRate_installs (r : baseResolver) (times : list Time) (lo : Z) :
  (Z.of_nat (length times) < minSampleSetSize -> calcNewRate r times = Returned r) /\
  (minSampleSetSize <= Z.of_nat (length times) ->
   Forall (inWindow lo) times ->
   let a := Z.min (meanGap times) Second in
   (0 < a ->
      calcNewRate r times =
        Returned (setRateLimit r
                    (let v := Second / ((3 * a + 3) / 4) in
                     if v <=? 1 then perSec r else v))) /\
   (a < 0 -> calcNewRate r times = Returned (setRateLimit r (perSec r)))).
Proof.
  split.
  - unfold calcNewRate. intros Hlt.
    destruct (Z.ltb_spec (Z.of_nat (length times)) minSampleSetSize);
      [reflexivity | lia].
  - intros Hlen Hall a. rewrite (calcNewRate_enough r times Hlen). cbv zeta.
    rewrite (sumGaps_total lo times Hall). fold (meanGap times). fold a.
    unfold minSampleSetSize in Hlen.
    assert (Hne : times <> []) by (destruct times; [cbn in Hlen; lia | congruence]).
    destruct (window_hd_last lo times Hne Hall) as [Hhd Hlast].
    unfold inWindow in Hhd, Hlast.
    assert (Hmean : minInt64 <= meanGap times).
    { unfold meanGap, minInt64.
      set (d := Z.of_nat (length times) - 1).
      assert (4 <= d) by (unfold d; lia).
      set (total := List.last times 0 - hd 0 times).
      assert (- 2 ^ 63 < total < 2 ^ 63) by (unfold total; lia).
      Z.quot_rem_to_equations. nia. }
    split; intros Ha.
    + assert (Hrange : 0 < a <= Second) by (unfold a in *; lia).
      rewrite (reduce_quarter a Hrange).
      assert (Hred : 0 < (3 * a + 3) / 4 <= Second).
      { unfold Second in *. Z.div_mod_to_equations. lia. }
      destruct (Z.eqb_spec ((3 * a + 3) / 4) 0) as [? | _]; [lia |].
      rewrite Z.quot_div_nonneg by (unfold Second in *; lia).
      reflexivity.
    + assert (Hrange : minInt64 <= a < 0)
        by (unfold a, Second, minInt64 in *; lia).
      pose proof (reduce_quarter_neg a Hrange) as Hred.
      set (red := wrap64 _) in *.
      destruct (Z.eqb_spec red 0) as [? | _]; [lia |].
      assert (Hq : Z.quot Second red <= 0).
      { unfold Second. Z.quot_rem_to_equations. nia. }
      destruct (Z.leb_spec (Z.quot Second red) 1) as [_ | ?]; [reflexivity | lia].
Qed.

(** The witness of [calcNewRate_installs]: five samples 190476190 ns
    apart. *)
Lemma calcNewRate_installs_witness :
  calcNewRate Bench.resolver0 Bench.evenSamples
  = Returned (setRateLimit Bench.resolver0 6).
Proof.
  pose proof (calcNewRate_installs Bench.resolver0 Bench.evenSamples 0) as [_ Hrate].
  assert (Hlen : minSampleSetSize <= Z.of_nat (length Bench.evenSamples))
    by (vm_compute; discriminate).
  assert (Hwin : Forall (inWindow 0) Bench.evenSamples).
  { repeat constructor; unfold inWindow; try lia. }
  destruct (Hrate Hlen Hwin) as [Hpos _].
  rewrite Hpos; [reflexivity | vm_compute; reflexivity].
Defined.

(** C3, as stated, fails: for five samples 190476190 ns apart the mean gap
    is 190476190 ns and [floor(1 s / (0.75 * avg))] is 7, yet the rate that
    [calcNewRate] installs is 6. *)
Lemma calcNewRate_not_spec_rate :
  minSampleSetSize <= Z.of_nat (length Bench.evenSamples) /\
  meanGap Bench.evenSamples = 190476190 /\
  specRate (meanGap Bench.evenSamples) = 7 /\
  calcNewRate Bench.resolver0 Bench.evenSamples
  = Returned (setRateLimit Bench.resolver0 6) /\
  calcNewRate Bench.resolver0 Bench.evenSamples
  <> Returned (setRateLimit Bench.resolver0
                 (let v := specRate (meanGap Bench.evenSamples) in
                  if v <=? 1 then perSec Bench.resolver0 else v)).
Proof.
  split; [vm_compute; discriminate |].
  split; [vm_compute; reflexivity |].
  split; [vm_compute; reflexivity |].
  split; [vm_compute; reflexivity |].
  vm_compute. discriminate.
Qed.

(** C10. When every sample carries the same instant the mean gap is zero,
    the reduced gap is zero as well, and the division
    [time.Second / avg] panics. *)
Theorem calcNewRate_divides_by_zero (r : baseResolver) (t : Time) :
  calcNewRate r [t; t; t; t; t] = Panic "integer divide by zero".
Proof.
  unfold calcNewRate. cbn [length]. change (Z.of_nat 5 <? minSampleSetSize) with false.
  cbn iota. cbn [sumGaps]. change (0 <? 0) with false. cbn iota.
  change (0 + 1) with 1. change (1 + 1) with 2. change (2 + 1) with 3.
  change (3 + 1) with 4.
  change (0 <? 1) with true. change (0 <? 2) with true.
  change (0 <? 3) with true. change (0 <? 4) with true. cbn iota.
  assert (Hsub : Sub t t = 0).
  { rewrite Sub_exact; unfold minInt64, maxInt64; lia. }
  rewrite Hsub. change (wrap64 (0 + 0)) with 0.
  reflexivity.
Qed.

Section WithDecls.
Context `{PackageDecls}.

Lemma returnRequest_delivered (r : baseResolver) req res :
  delivered (returnRequest r req res) = (delivered r ++ [(Result req, res)])%list.
Proof. reflexivity. Qed.

Lemma retry_code_spec (code : Z) :
  existsb (fun c => code =? c) RetryCodes = true <-> In code RetryCodes.
Proof.
  rewrite existsb_exists. split.
  - intros [c [Hin Heq]]. apply Z.eqb_eq in Heq. now subst.
  - intros Hin. exists code. split; [assumption | apply Z.eqb_refl].
Qed.

(** C2. The read-handling path completes a request according to the
    response: a response whose rcode is not success completes it with that
    response, the upstream rcode as the error's code and the retryable flag
    set exactly when the rcode is one of [RetryCodes]; a truncated success
    response leads to one exchange by a client with [Net = "tcp"] and a
    timeout of one minute, to the resolver's address, whose reply completes
    the request without error, while an error of that exchange completes it
    with a retryable error coded [ResolverErrRcode]; any other response
    completes the request with the UDP response and no error. *)
Theorem read_handling_classification (exchange : exchanger) (r : baseResolver)
    (m : Msg) (req : resolveRequest) :
  let r' := each exchange r {| Req := req; Resp := m |} in
  (Rcode m <> RcodeSuccess ->
     exists res e,
       delivered r' = (delivered r ++ [(Result req, res)])%list /\
       ResMsg res = Some m /\
       (Again res = true <-> In (Rcode m) RetryCodes) /\
       ResErr res = Some e /\ ErrRcode e = Rcode m) /\
  (Rcode m = RcodeSuccess -> Truncated m = true ->
     match exchange {| Net := "tcp"; Timeout := 60 * Second |}
                    (ReqMsg req) (address r) with
     | (reply, None) =>
         delivered r' =
           (delivered r ++
              [(Result req, {| ResMsg := reply; Again := false; ResErr := None |})])%list
     | (_, Some err) =>
         exists estr,
           delivered r' =
             (delivered r ++
                [(Result req,
                  {| ResMsg := None; Again := true;
                     ResErr := Some {| Err := estr; ErrRcode := ResolverErrRcode |} |})])%list
     end) /\
  (Rcode m = RcodeSuccess -> Truncated m = false ->
     delivered r' =
       (delivered r ++
          [(Result req, {| ResMsg := Some m; Again := false; ResErr := None |})])%list).
Proof.
  cbv zeta. unfold each, processMessage. cbn [Req Resp].
  repeat split.
  - intros Hne.
    assert (Hb : negb (Rcode m =? RcodeSuccess) = true).
    { apply negb_true_iff. now apply Z.eqb_neq. }
    rewrite Hb. eexists. eexists. rewrite returnRequest_delivered.
    split; [reflexivity |]. cbn.
    split; [reflexivity |]. split; [apply retry_code_spec |].
    split; reflexivity.
  - intros Heq Htc. rewrite Heq, Z.eqb_refl, Htc. cbn [negb].
    unfold tcpExchange. change Minute with (60 * Second).
    destruct (exchange _ _ _) as [reply [err |]].
    + eexists. rewrite returnRequest_delivered. reflexivity.
    + now rewrite returnRequest_delivered.
  - intros Heq Htc. rewrite Heq, Z.eqb_refl, Htc. cbn [negb].
    now rewrite returnRequest_delivered.
Qed.

End WithDecls.

(** The witness of [read_handling_classification]. *)
Lemma read_handling_classification_witness :
  delivered (each (H := Bench.decls) Bench.tcpOk Bench.resolver0
               {| Req := Bench.request0; Resp := Bench.truncated0 |})
  = [(0%nat, {| ResMsg := Some Bench.reply0; Again := false; ResErr := None |})].
Proof.
  pose proof (@read_handling_classification Bench.decls Bench.tcpOk
                Bench.resolver0 Bench.truncated0 Bench.request0) as [_ [Htc _]].
  exact (Htc eq_refl eq_refl).
Defined.

(** ** Timeouts *)

Section Timeouts.
Context `{PackageDecls}.

Lemma fold_returnRequest (mk : resolveRequest -> resolveResult)
    (l : list resolveRequest) :
  forall r : baseResolver,
    delivered
      (fold_left
         (fun r' req =>
            match ReqMsg req with
            | Some _ => returnRequest r' req (mk req)
            | None => r'
            end) l r)
    = (delivered r ++ map (fun req => (Result req, mk req)) (List.filter hasMsg l))%list.
Proof.
  induction l as [| req l IH]; intros r; cbn [fold_left List.filter map].
  - now rewrite app_nil_r.
  - rewrite IH. unfold hasMsg at 2. destruct (ReqMsg req).
    + cbn [map]. rewrite returnRequest_delivered, <- app_assoc. reflexivity.
    + reflexivity.
Qed.

(** C4, as amended. A failure to set the write deadline or to write the
    query completes the request with no message, the retryable flag set and
    the code [TimeoutRcode]; a tick of the timeout loop completes in the same
    way, in the order of the table, every request that [removeExpired] hands
    it and that has a message; and a request admitted to the exchange table whose context is
    cancelled gets a result with no message and the code [TimeoutRcode] whose
    retryable flag is cleared. *)
Theorem timeout_completions (r : baseResolver) :
  (forall deadlineErr writeErr now req,
     deadlineErr <> None \/ writeErr <> None ->
     exists estr,
       delivered (writeMessage r deadlineErr writeErr now req)
       = (delivered r ++
            [(Result req, makeResolveResult None true estr TimeoutRcode)])%list) /\
  (forall threshold now,
     exists estr : resolveRequest -> string,
       delivered (timeoutsTick threshold now r)
       = (delivered r ++
            map (fun req =>
                   (Result req, makeResolveResult None true (estr req) TimeoutRcode))
                (List.filter hasMsg
                   (fst (xchgRemoveExpired threshold now (xchgs r)))))%list) /\
  (forall msg q qs p resultChan retry id,
     Questions msg = q :: qs ->
     xchgFreeId (RemoveLastDot (QName q)) (Id msg :: retry) (xchgs r) = Some id ->
     exists r',
       queueQuery r msg p resultChan retry CtxDone
       = Returned (makeResolveResult None false
                     "The request context was cancelled" TimeoutRcode, r')).
Proof.
  repeat split.
  - intros deadlineErr writeErr now req Hfail. unfold writeMessage.
    destruct deadlineErr as [e |].
    + eexists. rewrite returnRequest_delivered. reflexivity.
    + destruct writeErr as [e |].
      * eexists. rewrite returnRequest_delivered. reflexivity.
      * destruct Hfail; congruence.
  - intros threshold now. unfold timeoutsTick, xchgRemoveExpired.
    eexists (fun req => _). rewrite fold_returnRequest. reflexivity.
  - intros msg q qs p resultChan retry id Hq Hfree.
    unfold queueQuery, xchgAdd. rewrite Hq. cbn [ID Name]. rewrite Hfree.
    eexists. reflexivity.
Qed.

End Timeouts.

(** The witness of [timeout_completions]: [query0] is admitted to the
    empty table and its context is cancelled. *)
Lemma timeout_completions_witness :
  exists r',
    queueQuery (H := Bench.decls) Bench.resolver0 Bench.query0 1 0%nat [] CtxDone
    = Returned (makeResolveResult None false
                  "The request context was cancelled" 101, r').
Proof.
  destruct (@timeout_completions Bench.decls Bench.resolver0) as [_ [_ Hc]].
  exact (Hc Bench.query0 _ _ 1 0%nat [] 7 eq_refl eq_refl).
Defined.

(** C4, as stated, fails: the result that releases a caller whose
    context is cancelled has the code [TimeoutRcode] and its retryable flag
    is not set. *)
Lemma cancellation_not_retryable :
  match queueQuery (H := Bench.decls) Bench.resolver0 Bench.query0 1 0%nat []
          CtxDone with
  | Returned (res, _) =>
      option_map ErrRcode (ResErr res) = Some (@TimeoutRcode Bench.decls) /\
      Again res <> true
  | _ => False
  end.
Proof. vm_compute. split; [reflexivity | discriminate]. Qed.

(** ** Sampling in the receive loop *)

Lemma onResponse_not_sampled (s : sampler) (req : resolveRequest) (o : observed) :
  sampled s req = false ->
  onResponse s req o =
    if (minSampleSetSize <? Z.of_nat (length (responseTimes s)))
       && (minSamplingTime <? Sub (rtime o) (last s))
    then ({| responseTimes := []; collect := collect s; stoppedAt := stoppedAt s;
             last := nowUpdate o |}, [responseTimes s])
    else (s, []).
Proof.
  unfold sampled, onResponse. intros Hs.
  apply orb_false_iff in Hs as [H1 H2]. rewrite H1, H2.
  destruct ((minSampleSetSize <? Z.of_nat (length (responseTimes s)))
            && (minSamplingTime <? Sub (rtime o) (last s))); reflexivity.
Qed.

Lemma onResponse_sampled (s : sampler) (req : resolveRequest) (o : observed) :
  sampled s req = true ->
  onResponse s req o =
    ({| responseTimes := (responseTimes s ++ [rtime o])%list;
        collect := collect s; stoppedAt := stoppedAt s; last := last s |}, []).
Proof.
  unfold sampled, onResponse. intros Hs.
  destruct (negb (IsZero (collect s)) && After (Timestamp req) (collect s));
    [reflexivity |].
  cbn [orb] in Hs. now rewrite Hs.
Qed.

(** C5, as amended. In an iteration of the receive loop that reads a
    response matched to the in-flight request [req], let [s1] be the sampler
    once the sampling signal, if any, has been taken. When the response is not
    itself counted as a sample, the buffer holds more than
    [minSampleSetSize] entries and more than [minSamplingTime] has passed
    since the last update, one [calcNewRate] goroutine is started on the
    buffer, the buffer is emptied and the time of the update is noted. When
    the response is counted as a sample, its arrival time is appended to the
    buffer and no recomputation is started for it. *)
Theorem responses_recompute (r : baseResolver) (s : sampler) (o : observed)
    (m : Msg) (q : Question) (qs : list Question) (req : resolveRequest)
    (t : list resolveRequest) :
  readMsgResult o = Some m ->
  Questions m = q :: qs ->
  xchgRemove (Id m) (QName q) (xchgs r) = (Some req, t) ->
  let s1 := fst (onMeasure s o) in
  let g1 := snd (onMeasure s o) in
  let r' := set_readMsgs (set_xchgs r t)
              (readMsgs r ++ [{| Req := req; Resp := m |}])%list in
  (sampled s1 req = false ->
   minSampleSetSize < Z.of_nat (length (responseTimes s1)) ->
   minSamplingTime < Sub (rtime o) (last s1) ->
   responsesIter r s o =
     (r',
      {| responseTimes := []; collect := collect s1; stoppedAt := stoppedAt s1;
         last := nowUpdate o |},
      (g1 ++ [responseTimes s1])%list)) /\
  (sampled s1 req = true ->
   responsesIter r s o =
     (r',
      {| responseTimes := (responseTimes s1 ++ [rtime o])%list;
         collect := collect s1; stoppedAt := stoppedAt s1; last := last s1 |},
      g1)).
Proof.
  intros Hread Hq Hrm s1 g1 r'. unfold responsesIter.
  destruct (onMeasure s o) as [s1' g1'] eqn:Hm. cbn [fst snd] in s1, g1.
  rewrite Hread, Hq, Hrm. split.
  - intros Hs Hlen Hold.
    rewrite (onResponse_not_sampled s1' req o Hs).
    destruct (Z.ltb_spec minSampleSetSize (Z.of_nat (length (responseTimes s1'))));
      [| unfold s1 in *; lia].
    destruct (Z.ltb_spec minSamplingTime (Sub (rtime o) (last s1')));
      [| unfold s1 in *; lia].
    reflexivity.
  - intros Hs. rewrite (onResponse_sampled s1' req o Hs).
    now rewrite app_nil_r.
Qed.

(** The witness of [responses_recompute]: the burst is over, six arrivals
    are buffered and the last update is ten seconds old. *)
Lemma responses_recompute_witness :
  responsesIter Bench.resolver2 Bench.sampler1 Bench.observed0
  = (set_readMsgs (set_xchgs Bench.resolver2 [])
       [{| Req := Bench.request2; Resp := Bench.reply0 |}],
     {| responseTimes := []; collect := 0; stoppedAt := 3500;
        last := 10 * Second + 1 |},
     [[4000; 5000; 6000; 7000; 8000; 9000]]).
Proof.
  pose proof (responses_recompute Bench.resolver2 Bench.sampler1 Bench.observed0
                Bench.reply0 _ _ Bench.request2 [] eq_refl eq_refl eq_refl)
    as [Hre _].
  apply Hre; [reflexivity | vm_compute; reflexivity | vm_compute; reflexivity].
Defined.

(** C5, as stated, fails: six arrivals are in the buffer and the last
    update is ten seconds old, yet the iteration that reads a response counted
    as a sample starts no recomputation. *)
Lemma responses_no_recompute_while_sampling :
  minSampleSetSize <= Z.of_nat (length (responseTimes Bench.sampler0)) /\
  minSamplingTime < Sub (rtime Bench.observed0) (last Bench.sampler0) /\
  snd (responsesIter Bench.resolver1 Bench.sampler0 Bench.observed0) = [].
Proof.
  split; [vm_compute; discriminate |].
  split; [vm_compute; reflexivity |].
  vm_compute. reflexivity.
Qed.

End EngineSpec.

(** * Proofs: wildcard detection *)

Module WildcardSpec.
Import Dns GoStrings StringSet Wildcards.

(** ** The cases of [TestWildcardDetected] *)

Section TestCases.
Import TestBench.

Example valid_name_outside_of_a_wildcard :
  verdict (WildcardDetected 1 pool0 (response "www.domain.com") "domain.com")
  = Some false.
Proof. vm_compute. reflexivity. Qed.

Example invalid_name_within_a_wildcard :
  verdict (WildcardDetected 1 pool0 (response "jeff_foley.wildcard.domain.com")
             "domain.com")
  = Some true.
Proof. vm_compute. reflexivity. Qed.

Example valid_name_within_a_wildcard :
  verdict (WildcardDetected 1 pool0 (response "ns.wildcard.domain.com") "domain.com")
  = Some false.
Proof. vm_compute. reflexivity. Qed.

End TestCases.

(** ** Record data sets and the match predicate *)

Section Matching.
Context `{Key} `{Extractor}.

Lemma elem_of_recordData_acc (ans : list ExtractedAnswer) :
  forall (acc : gset string) (k : string),
    k ∈ fold_left (fun records a => Insert (Trim (Data a) ".") records) ans acc
    <-> k ∈ acc \/ exists a, In a ans /\ k = setKey (Trim (Data a) ".").
Proof.
  induction ans as [| a ans IH]; intros acc k; cbn [fold_left].
  - split; [now left | intros [Hk | [a [[] _]]]; exact Hk].
  - rewrite IH. unfold Insert. rewrite elem_of_union, elem_of_singleton.
    split.
    + intros [[Hk | Hk] | [b [Hb Hk]]].
      * right. exists a. split; [now left | exact Hk].
      * now left.
      * right. exists b. split; [now right | exact Hk].
    + intros [Hk | [b [[Hb | Hb] Hk]]].
      * left. now right.
      * subst b. left. now left.
      * right. now exists b.
Qed.

Lemma elem_of_recordData (ans : list ExtractedAnswer) (k : string) :
  k ∈ recordData ans <-> exists a, In a ans /\ k = setKey (Trim (Data a) ".").
Proof.
  unfold recordData, New. rewrite elem_of_recordData_acc.
  split; [intros [Hk | Hk]; [set_solver | exact Hk] | now right].
Qed.

Lemma Len_pos (s : gset string) : (0 <? Len s) = true <-> exists k, k ∈ s.
Proof.
  unfold Len. rewrite Z.ltb_lt. split.
  - intros Hpos. apply size_pos_elem_of. lia.
  - intros [k Hk]. destruct (decide (size s = 0%nat)) as [Hz | Hnz]; [| lia].
    apply size_empty_iff in Hz. set_solver.
Qed.

Lemma length_zero_nil {A} (l : list A) : (Z.of_nat (length l) =? 0) = true <-> l = [].
Proof.
  rewrite Z.eqb_eq. destruct l; cbn [length]; split; intros Hl;
    try reflexivity; try lia; discriminate.
Qed.

(** C6. The match predicate of a wildcard state [w] on a response: no
    match when [Detected] is false; a match when [Detected] is true and the
    state's answers or the response's answer section are empty; otherwise a
    match exactly when some data string of the response and some data string
    of the state's answers, both trimmed of dots, are the same element of a
    string set. *)
Theorem respMatchesWildcard_spec (w : wildcard) (resp : Msg) :
  (Detected w = false -> respMatchesWildcard w resp = false) /\
  (Detected w = true -> Answers w = [] \/ Answer resp = [] ->
   respMatchesWildcard w resp = true) /\
  (Detected w = true -> Answers w <> [] -> Answer resp <> [] ->
   (respMatchesWildcard w resp = true <->
    exists a b,
      In a (ExtractAnswers resp) /\ In b (Answers w) /\
      setKey (Trim (Data a) ".") = setKey (Trim (Data b) "."))).
Proof.
  unfold respMatchesWildcard. split; [| split].
  - intros Hd. now rewrite Hd.
  - intros Hd Hempty. rewrite Hd.
    destruct Hempty as [He | He]; apply length_zero_nil in He; rewrite He;
      [reflexivity | now rewrite orb_true_r].
  - intros Hd Hwne Hrne. rewrite Hd.
    destruct (Z.of_nat (length (Answers w)) =? 0) eqn:Hw;
      [apply length_zero_nil in Hw; contradiction |].
    destruct (Z.of_nat (length (Answer resp)) =? 0) eqn:Hr;
      [apply length_zero_nil in Hr; contradiction |].
    cbn [orb]. split.
    + intros Hm.
      destruct (0 <? Len _) eqn:Hlen; [| discriminate].
      apply Len_pos in Hlen as [k Hk].
      unfold intersectRecordData, insertRecordData, Intersect, Union, New in Hk.
      apply elem_of_intersection in Hk as [Hk1 Hk2].
      apply elem_of_union in Hk1 as [Hk1 | Hk1]; [set_solver |].
      apply elem_of_recordData in Hk1 as [a [Ha Hka]].
      apply elem_of_recordData in Hk2 as [b [Hb Hkb]].
      exists a, b. repeat split; try assumption. congruence.
    + intros [a [b [Ha [Hb Hab]]]].
      assert (Hlen : (0 <? Len (intersectRecordData
                                  (insertRecordData New (ExtractAnswers resp))
                                  (Answers w))) = true).
      { apply Len_pos. exists (setKey (Trim (Data a) ".")).
        unfold intersectRecordData, insertRecordData, Intersect, Union.
        apply elem_of_intersection. split.
        - apply elem_of_union. right. apply elem_of_recordData. now exists a.
        - apply elem_of_recordData. now exists b. }
      now rewrite Hlen.
Qed.

End Matching.

(** The witness of [respMatchesWildcard_spec]: the state probed for
    [wildcard.domain.com] and the response for a name under it. *)
Lemma respMatchesWildcard_spec_witness :
  respMatchesWildcard (H := TestBench.lowerKey) (H0 := TestBench.extractAll)
    {| Detected := true;
       Answers := [{| AnsName := "abcdef.wildcard.domain.com"; AnsType := TypeA;
                      Data := "192.168.1.64" |}] |}
    (TestBench.response "jeff_foley.wildcard.domain.com")
  = true.
Proof.
  pose proof (@respMatchesWildcard_spec TestBench.lowerKey TestBench.extractAll
                {| Detected := true;
                   Answers := [{| AnsName := "abcdef.wildcard.domain.com";
                                  AnsType := TypeA; Data := "192.168.1.64" |}] |}
                (TestBench.response "jeff_foley.wildcard.domain.com"))
    as [_ [_ Hiff]].
  apply Hiff; [reflexivity | discriminate | vm_compute; discriminate |].
  eexists. eexists. split; [left; reflexivity |].
  split; [left; reflexivity | reflexivity].
Defined.

(** ** The probe *)

Lemma bind_Returned {A B} (m : outcome A) (f : A -> outcome B) (b : B) :
  m ≫= f = Returned b -> exists a, m = Returned a /\ f a = Returned b.
Proof.
  destruct m as [a | msg |]; cbn; intros Hb; try discriminate.
  now exists a.
Qed.

Section Probe.
Context {G N : Type} `{RandSource G} `{Detector N} `{Pool G} `{Key} `{Extractor}.

(** The loop that builds [final] keeps, of the answers it is given, the
    trimmed ones whose data is in [set], once per element of the set. *)
Lemma commonAnswers_inv (answers : list ExtractedAnswer) (set : gset string) :
  forall (already : gset string) (final : list ExtractedAnswer),
    (forall f, In f final -> answerKey f ∈ already) ->
    NoDup (map answerKey final) ->
    NoDup (map answerKey (commonAnswers answers set already final)) /\
    (forall a, In a (commonAnswers answers set already final) ->
       In a final \/
       exists b, In b answers /\ a = with_Data b (Trim (Data b) ".") /\
                 answerKey a ∈ set).
Proof.
  induction answers as [| b answers IH]; intros already final Hal Hnd;
    cbn [commonAnswers].
  - split; [exact Hnd | intros a Ha; now left].
  - set (b' := with_Data b (Trim (Data b) ".")).
    destruct (Has (Data b') set && negb (Has (Data b') already)) eqn:Hkeep.
    + apply andb_true_iff in Hkeep as [Hin Hnew].
      unfold Has in Hin, Hnew.
      apply bool_decide_eq_true in Hin.
      apply negb_true_iff, bool_decide_eq_false in Hnew.
      destruct (IH (Insert (Data b') already) (final ++ [b'])%list) as [Hnd' Hsub].
      * intros f Hf. unfold Insert. apply in_app_or in Hf as [Hf | [<- | []]].
        -- apply elem_of_union. right. now apply Hal.
        -- apply elem_of_union. left. now apply elem_of_singleton.
      * rewrite map_app. apply NoDup_app. split; [exact Hnd |].
        split; [| cbn; apply NoDup_singleton].
        intros k Hk Hk'. apply list_elem_of_In in Hk, Hk'.
        destruct Hk' as [<- | []].
        apply in_map_iff in Hk as [f [Hkf Hf]].
        apply Hnew. pose proof (Hal f Hf) as Hfa. cbv beta in Hkf, Hfa.
        now rewrite Hkf in Hfa.
      * split; [exact Hnd' |]. intros a Ha.
        destruct (Hsub a Ha) as [Hf | [c [Hc Hrest]]].
        -- apply in_app_or in Hf as [Hf | [<- | []]]; [now left |].
           right. exists b. split; [now left |]. split; [reflexivity | exact Hin].
        -- right. exists c. split; [now right | exact Hrest].
    + destruct (IH already final Hal Hnd) as [Hnd' Hsub].
      split; [exact Hnd' |]. intros a Ha.
      destruct (Hsub a Ha) as [Hf | [c [Hc Hrest]]]; [now left |].
      right. exists c. split; [now right | exact Hrest].
Qed.

(** A probe that returns has run three rounds, and what it keeps is
    drawn from what every round contributed. *)
Lemma wildcardTest_rounds (fuel : nat) (r : Resolvers G N) (sub : string)
    (detected : bool) (final : list ExtractedAnswer) (r' : Resolvers G N) :
  wildcardTest fuel r sub = Returned (detected, final, r') ->
  exists d0 ans0 r0 d1 ans1 r1 ans2 r2,
    probeRound fuel sub false r = Returned (d0, ans0, r0) /\
    probeRound fuel sub d0 r0 = Returned (d1, ans1, r1) /\
    probeRound fuel sub d1 r1 = Returned (detected, ans2, r2) /\
    (forall a, In a final ->
       (exists b, In b (ans0 ++ ans1 ++ ans2)%list /\
                  a = with_Data b (Trim (Data b) ".")) /\
       (forall ans, In ans [ans0; ans1; ans2] ->
          exists b, In b ans /\ setKey (Trim (Data b) ".") = setKey (Data a))) /\
    NoDup (map answerKey final) /\
    (forall (v : string) ans,
       In ans [ans0; ans1; ans2] ->
       (forall b, In b ans -> setKey (Trim (Data b) ".") <> setKey v) ->
       forall a, In a final -> setKey (Data a) <> setKey v).
Proof.
  unfold wildcardTest. intros Hrun.
  apply bind_Returned in Hrun as [[[[det answers] set] r3] [Hrounds Hfin]].
  change (Z.to_nat numOfWildcardTests) with 3%nat in Hrounds.
  cbn [probeRounds] in Hrounds.
  apply bind_Returned in Hrounds as [[[d0 ans0] r0] [H0' Hrounds]].
  apply bind_Returned in Hrounds as [[[d1 ans1] r1] [H1' Hrounds]].
  apply bind_Returned in Hrounds as [[[d2 ans2] r2] [H2' Hrounds]].
  change (0 =? 0) with true in Hrounds.
  change (0 + 1 =? 0) with false in Hrounds.
  change (0 + 1 + 1 =? 0) with false in Hrounds.
  cbn iota in Hrounds.
  assert (Hstate : d2 = det /\ ((ans0 ++ ans1) ++ ans2)%list = answers /\
                   intersectRecordData
                     (intersectRecordData (insertRecordData New ans0) ans1) ans2
                   = set).
  { now inversion Hrounds. }
  destruct Hstate as [-> [Hans Hset]].
  assert (Hfinal : final = commonAnswers answers set New [] /\ detected = det).
  { destruct det.
    - destruct (detector r3); [| discriminate].
      now inversion Hfin.
    - now inversion Hfin. }
  destruct Hfinal as [Hfinal ->].
  destruct (commonAnswers_inv answers set New []) as [Hnd Hsub].
  { intros f []. }
  { constructor. }
  rewrite <- Hfinal in Hnd, Hsub.
  assert (Hmem : forall a, In a final ->
            (exists b, In b (ans0 ++ ans1 ++ ans2)%list /\
                       a = with_Data b (Trim (Data b) ".")) /\
            (forall ans, In ans [ans0; ans1; ans2] ->
               exists b, In b ans /\ setKey (Trim (Data b) ".") = setKey (Data a))).
  { intros a Ha. destruct (Hsub a Ha) as [[] | [b [Hb [Hab Hk]]]].
    split.
    - exists b. split; [| exact Hab]. subst answers.
      cbn [app] in Hb. now rewrite <- app_assoc in Hb.
    - subst set. unfold intersectRecordData, insertRecordData, Intersect, Union, New in Hk.
      apply elem_of_intersection in Hk as [Hk Hk2].
      apply elem_of_intersection in Hk as [Hk Hk1].
      apply elem_of_union in Hk as [Hk | Hk0]; [set_solver |].
      intros ans [<- | [<- | [<- | []]]].
      + apply elem_of_recordData in Hk0 as [c [Hc Hkc]]. exists c. now split.
      + apply elem_of_recordData in Hk1 as [c [Hc Hkc]]. exists c. now split.
      + apply elem_of_recordData in Hk2 as [c [Hc Hkc]]. exists c. now split. }
  exists d0, ans0, r0, d1, ans1, r1, ans2, r2.
  split; [exact H0' |]. split; [exact H1' |]. split; [exact H2' |].
  split; [exact Hmem |]. split; [exact Hnd |].
  intros v ans Hin Hnone a Ha Hv.
  destruct (Hmem a Ha) as [_ Hall].
  destruct (Hall ans Hin) as [b [Hb Hkb]].
  apply (Hnone b Hb). congruence.
Qed.

(** *** The probe returns when its name loops do *)

Lemma makeQueryAttempts_returns (r : Resolvers G N) (d : resolver)
    (name : string) (qtype : Z) :
  detector r = Some d ->
  exists a nt, makeQueryAttempts r name qtype = Returned (a, set_net r nt).
Proof.
  intros Hd. unfold makeQueryAttempts, getDetectionResolver. rewrite Hd.
  destruct (queryAttempts _ d name qtype (net r)) as [a nt]. now exists a, nt.
Qed.

Lemma queryTypes_returns (name : string) (d : resolver) (types : list Z) :
  forall (detected : bool) (ans : list ExtractedAnswer) (r : Resolvers G N),
    detector r = Some d ->
    exists detected' ans' r',
      queryTypes types name detected ans r = Returned (detected', ans', r') /\
      detector r' = Some d /\ rng r' = rng r.
Proof.
  induction types as [| t types IH]; intros detected ans r Hd; cbn [queryTypes].
  - now exists detected, ans, r.
  - destruct (makeQueryAttempts_returns r d name t Hd) as [a [nt Ha]].
    rewrite Ha. cbn.
    destruct (0 <? Z.of_nat (length a)).
    + destruct (IH true (ans ++ a)%list (set_net r nt) Hd)
        as (d' & ans' & r' & Hq & Hd' & Hg).
      now exists d', ans', r'.
    + destruct (IH detected ans (set_net r nt) Hd)
        as (d' & ans' & r' & Hq & Hd' & Hg).
      now exists d', ans', r'.
Qed.

Lemma probeRound_returns (fuel : nat) (sub : string) (detected : bool)
    (r : Resolvers G N) (d : resolver) (name : string) (g : G) :
  detector r = Some d ->
  unlikelyLoop fuel sub (rng r) = Returned (name, g) ->
  exists detected' ans r',
    probeRound fuel sub detected r = Returned (detected', ans, r') /\
    detector r' = Some d /\ rng r' = g.
Proof.
  intros Hd Hname. unfold probeRound. rewrite Hname. cbn.
  destruct (queryTypes_returns name d wildcardQueryTypes detected []
              (set_rng r g) Hd)
    as (d' & ans' & r' & Hq & Hd' & Hg).
  now exists d', ans', r'.
Qed.

Lemma wildcardTest_returns (fuel : nat) (r : Resolvers G N) (sub : string)
    (d : resolver) (n0 n1 n2 : string) (g1 g2 g3 : G) :
  detector r = Some d ->
  unlikelyLoop fuel sub (rng r) = Returned (n0, g1) ->
  unlikelyLoop fuel sub g1 = Returned (n1, g2) ->
  unlikelyLoop fuel sub g2 = Returned (n2, g3) ->
  exists detected final r',
    wildcardTest fuel r sub = Returned (detected, final, r').
Proof.
  intros Hd Hn0 Hn1 Hn2.
  destruct (probeRound_returns fuel sub false r d n0 g1 Hd Hn0)
    as (d0 & ans0 & r0 & Hr0 & Hd0 & Hg0).
  rewrite <- Hg0 in Hn1.
  destruct (probeRound_returns fuel sub d0 r0 d n1 g2 Hd0 Hn1)
    as (d1 & ans1 & r1 & Hr1 & Hd1 & Hg1).
  rewrite <- Hg1 in Hn2.
  destruct (probeRound_returns fuel sub d1 r1 d n2 g3 Hd1 Hn2)
    as (d2 & ans2 & r2 & Hr2 & Hd2 & Hg2).
  unfold wildcardTest.
  change (Z.to_nat numOfWildcardTests) with 3%nat. cbn [probeRounds].
  rewrite Hr0. cbn. rewrite Hr1. cbn. rewrite Hr2. cbn.
  destruct d2.
  - rewrite Hd2. now eexists; eexists; eexists.
  - now eexists; eexists; eexists.
Qed.

(** C7. With a detection resolver, and each of the three loops that ask
    for an unlikely name finding one within the fuel, the probe of [sub]
    returns; its three rounds have answers [ans0], [ans1] and [ans2], and
    the canonical list [final]
    holds only trimmed copies of those answers whose data, trimmed of dots,
    is an element that every one of the three rounds contributed; no two
    entries of [final] have the same element as data; hence a value for which
    some round has no answer is the data of no entry of [final]. *)
Theorem wildcardTest_intersection (fuel : nat) (r : Resolvers G N) (sub : string)
    (d : resolver) (n0 n1 n2 : string) (g1 g2 g3 : G) :
  detector r = Some d ->
  unlikelyLoop fuel sub (rng r) = Returned (n0, g1) ->
  unlikelyLoop fuel sub g1 = Returned (n1, g2) ->
  unlikelyLoop fuel sub g2 = Returned (n2, g3) ->
  exists detected final r' d0 ans0 r0 d1 ans1 r1 ans2 r2,
    wildcardTest fuel r sub = Returned (detected, final, r') /\
    probeRound fuel sub false r = Returned (d0, ans0, r0) /\
    probeRound fuel sub d0 r0 = Returned (d1, ans1, r1) /\
    probeRound fuel sub d1 r1 = Returned (detected, ans2, r2) /\
    (forall a, In a final ->
       (exists b, In b (ans0 ++ ans1 ++ ans2)%list /\
                  a = with_Data b (Trim (Data b) ".")) /\
       (forall ans, In ans [ans0; ans1; ans2] ->
          exists b, In b ans /\ setKey (Trim (Data b) ".") = setKey (Data a))) /\
    NoDup (map answerKey final) /\
    (forall (v : string) ans,
       In ans [ans0; ans1; ans2] ->
       (forall b, In b ans -> setKey (Trim (Data b) ".") <> setKey v) ->
       forall a, In a final -> setKey (Data a) <> setKey v).
Proof.
  intros Hd Hn0 Hn1 Hn2.
  destruct (wildcardTest_returns fuel r sub d n0 n1 n2 g1 g2 g3 Hd Hn0 Hn1 Hn2)
    as (detected & final & r' & Hrun).
  destruct (wildcardTest_rounds fuel r sub detected final r' Hrun)
    as (d0 & ans0 & r0 & d1 & ans1 & r1 & ans2 & r2 & Hrounds).
  exists detected, final, r', d0, ans0, r0, d1, ans1, r1, ans2, r2.
  split; [exact Hrun | exact Hrounds].
Qed.

End Probe.

(** ** Unlikely names *)

Lemma length_append (a b : string) :
  String.length (a ++ b) = (String.length a + String.length b)%nat.
Proof. induction a as [| c a IH]; simpl; [reflexivity | now rewrite IH]. Qed.

Lemma list_ascii_append (a b : string) :
  list_ascii_of_string (a ++ b)
  = (list_ascii_of_string a ++ list_ascii_of_string b)%list.
Proof. induction a as [| c a IH]; simpl; [reflexivity | now rewrite IH]. Qed.

Lemma TrimLeft_head (c : ascii) (s t : string) : TrimLeft c s <> String c t.
Proof.
  induction s as [| a s IH]; cbn; [discriminate |].
  destruct (Ascii.eqb_spec a c) as [-> | Hne]; [exact IH |].
  intros Heq. injection Heq as Ha _. contradiction.
Qed.

Lemma TrimRight_head (c : ascii) (s : string) :
  (forall t, s <> String c t) -> forall t, TrimRight c s <> String c t.
Proof.
  destruct s as [| a s]; intros Hs t; cbn; [discriminate |].
  assert (Hac : a <> c) by (intros ->; now apply (Hs s)).
  destruct (TrimRight c s).
  - destruct (Ascii.eqb_spec a c); [contradiction |].
    intros Heq. injection Heq as Ha _. contradiction.
  - intros Heq. injection Heq as Ha _. contradiction.
Qed.

Lemma TrimRight_last (c : ascii) (s t : string) :
  TrimRight c s <> t ++ String c EmptyString.
Proof.
  revert t. induction s as [| a s IH]; intros t; cbn.
  - destruct t; discriminate.
  - destruct (TrimRight c s) as [| b u] eqn:Hu.
    + destruct (Ascii.eqb_spec a c) as [-> | Hne].
      * destruct t; discriminate.
      * destruct t as [| d [| e t]]; cbn; try discriminate.
        intros Heq. injection Heq as Ha. contradiction.
    + destruct t as [| d t]; cbn; [discriminate |].
      intros Heq. injection Heq as _ Hrest. now apply (IH t).
Qed.

(** What [strings.Trim] leaves neither begins nor ends with the
    character. *)
Lemma Trim_edges (s : string) (c : ascii) :
  (forall t, Trim s c <> String c t) /\
  (forall t, Trim s c <> t ++ String c EmptyString).
Proof.
  unfold Trim. split.
  - apply TrimRight_head. intros t. apply TrimLeft_head.
  - intros t. apply TrimRight_last.
Qed.

Lemma maxLabelLenFor_eq (sub : string) :
  maxLabelLenFor sub
  = Z.max MinLabelLen (Z.min MaxLabelLen (MaxDNSNameLen - len sub - 1)).
Proof.
  unfold maxLabelLenFor, MinLabelLen, MaxLabelLen, MaxDNSNameLen.
  destruct (Z.ltb_spec 24 (253 - (len sub + 1))); [lia |].
  destruct (Z.ltb_spec (253 - (len sub + 1)) 6); lia.
Qed.

Section Names.
Context {G : Type} `{RandSource G}.

Lemma swap_Forall {A} (P : A -> Prop) (i j : Z) (l : list A) :
  Forall P l -> Forall P (swap i j l).
Proof.
  intros Hl. unfold swap.
  destruct (l !! Z.to_nat i) as [x |] eqn:Hi; [| exact Hl].
  destruct (l !! Z.to_nat j) as [y |] eqn:Hj; [| exact Hl].
  apply Forall_insert; [apply Forall_insert |]; try assumption.
  - exact (Forall_lookup_1 P l _ x Hl Hi).
  - exact (Forall_lookup_1 P l _ y Hl Hj).
Qed.

Lemma swap_length {A} (i j : Z) (l : list A) : length (swap i j l) = length l.
Proof.
  unfold swap.
  destruct (l !! Z.to_nat i); [| reflexivity].
  destruct (l !! Z.to_nat j); [| reflexivity].
  now rewrite !length_insert.
Qed.

Lemma shuffleFrom_inv {A} (P : A -> Prop) (i : nat) :
  forall (l : list A) (g : G),
    Forall P l ->
    Forall P (fst (shuffleFrom i l g)) /\
    length (fst (shuffleFrom i l g)) = length l.
Proof.
  induction i as [| i IH]; intros l g Hl; cbn [shuffleFrom].
  - now split.
  - destruct (Intn (Z.of_nat (S i) + 1) g) as [j g'].
    destruct (IH (swap (Z.of_nat (S i)) j l) g' (swap_Forall P _ _ l Hl))
      as [HP Hlen].
    split; [exact HP | now rewrite Hlen, swap_length].
Qed.

Lemma fillLabel_inv (P : ascii -> Prop) (ldh : list ascii) :
  rand_ok -> Forall P ldh -> length ldh = 37%nat ->
  forall (n : nat) (acc : string) (g : G),
    Forall P (list_ascii_of_string acc) ->
    String.length (fst (fillLabel n ldh 37 acc g)) = (String.length acc + n)%nat /\
    Forall P (list_ascii_of_string (fst (fillLabel n ldh 37 acc g))).
Proof.
  intros [_ Hint] Hldh Hlen. induction n as [| n IH]; intros acc g Hacc;
    cbn [fillLabel].
  - cbn [fst]. split; [lia | exact Hacc].
  - pose proof (Hint g) as Hx. destruct (Int g) as [x g']. cbn [fst] in Hx.
    set (c := nth (Z.to_nat (Z.rem x (37 - 1))) ldh "000"%char).
    assert (Hc : P c).
    { apply (proj1 (List.Forall_forall P ldh) Hldh). apply nth_In.
      rewrite Hlen. change (37 - 1) with 36.
      assert (0 <= Z.rem x 36 < 36) by (apply Z.rem_bound_pos; lia). lia. }
    destruct (IH (acc ++ String c EmptyString) g') as [Hl HP].
    { rewrite list_ascii_append. apply Forall_app. split; [exact Hacc |].
      cbn. now constructor. }
    split; [| exact HP].
    rewrite Hl, length_append. cbn [String.length]. lia.
Qed.

(** C9, as amended. For a source that keeps the contract of [math/rand],
    the label [UnlikelyName] builds under [sub] has length
    [MinLabelLen + k], where [k] is one draw of [Intn] among
    [hi - MinLabelLen + 1] values and
    [hi = max(MinLabelLen, min(MaxLabelLen, 253 - len(sub) - 1))]; each of
    its characters is one of [LDHChars]; and the result is the empty string
    when the label trimmed of "-" is empty, and otherwise the trimmed label,
    which neither begins nor ends with "-", joined to [sub] by a dot. *)
Theorem UnlikelyName_spec (sub : string) (g : G) :
  rand_ok ->
  let hi := Z.max MinLabelLen (Z.min MaxLabelLen (MaxDNSNameLen - len sub - 1)) in
  exists (k : Z) (label : string) (g1 g' : G),
    k = fst (Intn (hi - MinLabelLen + 1) g1) /\
    0 <= k <= hi - MinLabelLen /\
    rawLabel sub g = (label, g') /\
    len label = MinLabelLen + k /\
    (forall c, In c (list_ascii_of_string label) ->
               In c (list_ascii_of_string LDHChars)) /\
    (forall t, Trim label "-" <> String "-" t) /\
    (forall t, Trim label "-" <> t ++ "-") /\
    UnlikelyName sub g
    = (if String.eqb (Trim label "-") EmptyString then EmptyString
       else Trim label "-" ++ "." ++ sub, g').
Proof.
  intros Hok hi. unfold UnlikelyName, rawLabel.
  rewrite (maxLabelLenFor_eq sub). fold hi.
  set (ldh0 := list_ascii_of_string LDHChars).
  change (Z.of_nat (length ldh0)) with 37.
  unfold Shuffle.
  assert (H0 : Forall (fun c => In c ldh0) ldh0) by (now apply List.Forall_forall).
  destruct (shuffleFrom_inv (fun c => In c ldh0) (Z.to_nat (37 - 1)) ldh0 g H0)
    as [Hldh Hlen].
  destruct (shuffleFrom (Z.to_nat (37 - 1)) ldh0 g) as [ldh g1].
  cbn [fst] in Hldh, Hlen.
  assert (Hhi : MinLabelLen <= hi) by (unfold hi; lia).
  pose proof (proj1 Hok (hi - MinLabelLen + 1) g1 ltac:(lia)) as Hk.
  destruct (Intn (hi - MinLabelLen + 1) g1) as [k g2] eqn:Hdraw. cbn [fst] in Hk.
  destruct (fillLabel_inv (fun c => In c ldh0) ldh Hok Hldh Hlen
              (Z.to_nat (MinLabelLen + k)) EmptyString g2
              (List.Forall_nil _))
    as [Hl HP].
  destruct (fillLabel (Z.to_nat (MinLabelLen + k)) ldh 37 EmptyString g2)
    as [label g'].
  cbn [fst] in Hl, HP.
  exists k, label, g1, g'.
  split; [now rewrite Hdraw |]. split; [lia |]. split; [reflexivity |].
  split.
  { unfold len. rewrite Hl. cbn [String.length]. unfold MinLabelLen in *. lia. }
  split; [exact (proj1 (List.Forall_forall _ _) HP) |].
  split; [apply Trim_edges |]. split; [apply (Trim_edges label "-") |].
  destruct (String.eqb_spec (Trim label "-") EmptyString) as [Hempty | _];
    [now rewrite Hempty | reflexivity].
Qed.

End Names.

(** ** Labels and suffixes *)

Lemma Split_cons (s : string) : exists x xs, Split s = x :: xs.
Proof.
  induction s as [| c s [x [xs IH]]]; cbn [Split]; [now eexists; eexists |].
  destruct (Ascii.eqb c "."); [now eexists; eexists |].
  rewrite IH. now eexists; eexists.
Qed.

Lemma Join_Split (s : string) : Join (Split s) = s.
Proof.
  induction s as [| c s IH]; [reflexivity |]. cbn [Split].
  destruct (Split_cons s) as [x [xs Hs]]. rewrite Hs in *.
  destruct (Ascii.eqb_spec c ".") as [-> | _].
  - change (Join (EmptyString :: x :: xs)) with (String "." (Join (x :: xs))).
    now rewrite IH.
  - destruct xs as [| y ys].
    + change (Join [String c x]) with (String c (Join [x])). now rewrite IH.
    + change (Join (String c x :: y :: ys)) with (String c (Join (x :: y :: ys))).
      now rewrite IH.
Qed.

Lemma Split_app_dot (p d : string) :
  Split (p ++ String "." d) = (Split p ++ Split d)%list.
Proof.
  induction p as [| c p IH]; [reflexivity |].
  simpl. rewrite IH.
  destruct (Ascii.eqb c "."); [reflexivity |].
  destruct (Split_cons p) as [x [xs Hp]]. now rewrite Hp.
Qed.

(** For a name that lies under the domain, the suffix that has as many
    labels as the domain is the domain. *)
Lemma strip_to_domain (p d : string) :
  strip (Split (p ++ String "." d))
        (length (Split (p ++ String "." d)) - length (Split d))
  = d.
Proof.
  unfold strip. rewrite Split_app_dot, length_app.
  replace (length (Split p) + length (Split d) - length (Split d))%nat
    with (length (Split p)) by lia.
  now rewrite drop_app_length, Join_Split.
Qed.

Lemma rev_seq_S (start n : nat) :
  rev (seq start (S n)) = (start + n)%nat :: rev (seq start n).
Proof. now rewrite seq_S, rev_app_distr. Qed.

(** ** The cross-level heuristic *)

Section Levels.
Context {G N : Type} `{RandSource G} `{Detector N} `{Pool G} `{Key} `{Extractor}.

Lemma levelsLoop_walk (r : Resolvers G N) (labels : list string) (n : nat) :
  forall (i : nat) (records : gset string),
    (1 <= i)%nat ->
    levelsLoop n (Z.of_nat i) r labels records
    = walkLevels r (map (strip labels) (seq i n)) (Nat.eqb i 1) records.
Proof.
  induction n as [| n IH]; intros i records Hi; [reflexivity |].
  cbn [levelsLoop seq map walkLevels].
  unfold sliceFrom. rewrite Nat2Z.id. fold (strip labels i).
  destruct (getWildcard r (strip labels i)) as [w |]; [| reflexivity].
  destruct (Answers w) as [| a ans] eqn:Hans; [reflexivity |].
  change (Z.of_nat (length (a :: ans)) =? 0) with false. cbn iota.
  replace (Z.of_nat i + 1) with (Z.of_nat (S i)) by lia.
  rewrite (IH (S i)) by lia.
  replace (Nat.eqb (S i) 1) with false
    by (symmetry; apply Nat.eqb_neq; lia).
  replace (Z.of_nat i =? 1) with (Nat.eqb i 1); [reflexivity |].
  destruct (Nat.eqb_spec i 1) as [-> | Hne]; [reflexivity |].
  symmetry. apply Z.eqb_neq. lia.
Qed.

Lemma walkLevels_inner (r : Resolvers G N) (subs : list string) :
  forall (records : gset string) (v : string),
    v ∈ walkLevels r subs false records
    <-> v ∈ records /\ forall d, In d (levelsUsed r subs) -> v ∈ d.
Proof.
  induction subs as [| sub subs IH]; intros records v;
    cbn [walkLevels levelsUsed].
  - split; [intros Hv; split; [exact Hv | intros d []] | now intros [Hv _]].
  - unfold levelData. destruct (getWildcard r sub) as [w |].
    + destruct (Answers w) as [| a ans] eqn:Hans.
      * split; [intros Hv; split; [exact Hv | intros d []] | now intros [Hv _]].
      * rewrite IH. unfold intersectRecordData, Intersect.
        rewrite elem_of_intersection. split.
        -- intros [[Hr Hd] Hrest]. split; [exact Hr |].
           intros d [<- | Hin]; [exact Hd | now apply Hrest].
        -- intros [Hr Hall]. split; [split; [exact Hr |] |].
           ++ apply Hall. now left.
           ++ intros d Hin. apply Hall. now right.
    + split; [intros Hv; split; [exact Hv | intros d []] | now intros [Hv _]].
Qed.

(** The walk ends with a record set that is not empty exactly when it used
    at least one level and some value is in the record data of every level
    it used. *)
Lemma walkLevels_shared (r : Resolvers G N) (subs : list string) :
  (0 <? Len (walkLevels r subs true New)) = true
  <-> levelsUsed r subs <> [] /\
      exists v, forall d, In d (levelsUsed r subs) -> v ∈ d.
Proof.
  rewrite Len_pos. destruct subs as [| sub subs]; cbn [walkLevels levelsUsed].
  - unfold New. split; [intros [v Hv]; set_solver | now intros [Hne _]].
  - unfold levelData. destruct (getWildcard r sub) as [w |].
    + destruct (Answers w) as [| a ans] eqn:Hans.
      * unfold New. split; [intros [v Hv]; set_solver | now intros [Hne _]].
      * split.
        -- intros [v Hv]. apply walkLevels_inner in Hv as [Hv Hrest].
           unfold insertRecordData, Union, New in Hv.
           apply elem_of_union in Hv as [Hv | Hv]; [set_solver |].
           split; [discriminate |]. exists v.
           intros d [<- | Hin]; [exact Hv | now apply Hrest].
        -- intros [_ [v Hall]]. exists v. apply walkLevels_inner. split.
           ++ unfold insertRecordData, Union. apply elem_of_union. right.
              apply Hall. now left.
           ++ intros d Hin. apply Hall. now right.
    + unfold New. split; [intros [v Hv]; set_solver | now intros [Hne _]].
Qed.

(** C8, as amended. The cross-level heuristic returns false when the
    question name has fewer than 3 labels more than the base domain.
    Otherwise it walks the suffixes got by dropping the first label of the
    name, the first two, and so on down to the suffix that has as many labels
    as the base domain; it stops at the first of them that has no state or
    no answers, seeds the record set from the first level (the name without
    its first label) and intersects it with every further one; and it returns
    true exactly when the set it has when the walk ends is not empty, that
    is when the walk used at least one level and some value is in the record
    data of every level it used. *)
Theorem testIPsAcrossLevels_walk (r : Resolvers G N) (name domain : string) :
  let labels := Split (ToLower name) in
  let base := length (Split domain) in
  ((length labels < base + 3)%nat -> testIPsAcrossLevels r name domain = false) /\
  ((base + 3 <= length labels)%nat ->
   testIPsAcrossLevels r name domain
   = (0 <? Len (walkLevels r (levelsInward labels base) true New))) /\
  (forall j, (j < length labels - base)%nat ->
             levelsInward labels base !! j = Some (strip labels (S j))) /\
  ((base + 3 <= length labels)%nat ->
   (testIPsAcrossLevels r name domain = true
    <-> levelsUsed r (levelsInward labels base) <> [] /\
        exists v, forall d, In d (levelsUsed r (levelsInward labels base)) -> v ∈ d)).
Proof.
  intros labels base.
  assert (Hwalk : (base + 3 <= length labels)%nat ->
                  testIPsAcrossLevels r name domain
                  = (0 <? Len (walkLevels r (levelsInward labels base) true New))).
  { intros Hdeep. unfold testIPsAcrossLevels. fold labels. fold base.
    destruct (Z.leb_spec (Z.of_nat (length labels)) (Z.of_nat base)); [lia |].
    destruct (Z.ltb_spec (Z.of_nat (length labels) - Z.of_nat base) 3); [lia |].
    cbn [orb]. change 1 with (Z.of_nat 1).
    rewrite levelsLoop_walk by lia. unfold levelsInward.
    replace (Z.to_nat (Z.of_nat (length labels) - Z.of_nat base))
      with (length labels - base)%nat by lia.
    reflexivity. }
  split; [| split; [exact Hwalk | split]].
  - intros Hshort. unfold testIPsAcrossLevels. fold labels. fold base.
    destruct (Z.leb_spec (Z.of_nat (length labels)) (Z.of_nat base));
      [reflexivity |].
    destruct (Z.ltb_spec (Z.of_nat (length labels) - Z.of_nat base) 3);
      [reflexivity | lia].
  - intros j Hj. unfold levelsInward.
    rewrite list_lookup_fmap, lookup_seq_lt by exact Hj. reflexivity.
  - intros Hdeep. rewrite (Hwalk Hdeep). apply walkLevels_shared.
Qed.

End Levels.

(** ** [WildcardDetected] *)

Section Detection.
Context {G N : Type} `{RandSource G} `{Detector N} `{Pool G} `{Key} `{Extractor}.

Lemma detectLoop_walk (fuel : nat) (resp : Msg) (labels : list string) (n : nat) :
  forall r : Resolvers G N,
    detectLoop n fuel resp labels r
    = walkSuffixes fuel resp (map (strip labels) (rev (seq 0 n))) r.
Proof.
  induction n as [| n IH]; intros r; [reflexivity |].
  rewrite rev_seq_S. cbn [detectLoop map walkSuffixes Nat.add].
  unfold sliceFrom. rewrite Nat2Z.id. fold (strip labels n).
  destruct (checkLevel fuel resp (strip labels n) r) as [[matched r'] | |];
    try reflexivity.
  cbn. destruct matched; [reflexivity | apply IH].
Qed.

Lemma strip_drop (labels : list string) (i : nat) :
  strip (drop 1 labels) i = strip labels (S i).
Proof. unfold strip. now rewrite drop_drop. Qed.

Lemma suffixesBelow_shift (labels : list string) (l : nat) :
  map (strip (drop 1 labels)) (rev (seq 0 l))
  = map (strip labels) (rev (seq 1 l)).
Proof.
  rewrite <- seq_shift, <- map_rev, map_map.
  apply map_ext. intros i. apply strip_drop.
Qed.

Lemma checkLevel_hit (fuel : nat) (resp : Msg) (sub : string) (r : Resolvers G N)
    (w : wildcard) :
  getWildcard r sub = Some w ->
  checkLevel fuel resp sub r = Returned (respMatchesWildcard w resp, r).
Proof. intros Hw. unfold checkLevel. now rewrite Hw. Qed.

Lemma checkLevel_miss (fuel : nat) (resp : Msg) (sub : string) (r : Resolvers G N)
    (d : bool) (a : list ExtractedAnswer) (r' : Resolvers G N) :
  getWildcard r sub = None ->
  wildcardTest fuel (setWildcard r sub {| Detected := false; Answers := [] |}) sub
  = Returned (d, a, r') ->
  checkLevel fuel resp sub r
  = Returned (respMatchesWildcard {| Detected := d; Answers := a |} resp,
              setWildcard r' sub {| Detected := d; Answers := a |}).
Proof. intros Hw Ht. unfold checkLevel. rewrite Hw. cbn. now rewrite Ht. Qed.

(** C1, as amended. Without a detection resolver [WildcardDetected]
    returns false. With one, and a response that has a question, it
    canonicalises the question name and the base domain (lowercase, one
    trailing dot removed) and checks suffixes of the question name innermost
    first: when the name has more labels than the base domain, from the
    suffix that has as many labels as the base domain (the base domain itself
    for a name under it) to the suffix one label short of the name; when it
    has exactly as many labels, the name itself; when it has fewer, none. At
    each suffix a state found in the registry is used as it is, and a missing
    one is created, probed and stored. It returns true as soon as the
    response matches a state, and the result of the cross-level heuristic
    when none matches. *)
Theorem WildcardDetected_walk (fuel : nat) (r : Resolvers G N) (resp : Msg)
    (domain : string) :
  let dom := ToLower (RemoveLastDot domain) in
  (forall r1, goodDetector r = (false, r1) ->
     WildcardDetected fuel r resp domain = Returned (false, r1)) /\
  (forall r1 q qs,
     goodDetector r = (true, r1) -> Questions resp = q :: qs ->
     let name := ToLower (RemoveLastDot (QName q)) in
     let labels := Split name in
     let base := length (Split dom) in
     let subs := if (base <? length labels)%nat then suffixesBelow labels base
                 else if (length labels =? base)%nat then [name] else [] in
     WildcardDetected fuel r resp domain
     = '(matched, r2) ← walkSuffixes fuel resp subs r1;
       if matched : bool then Returned (true, r2)
       else Returned (testIPsAcrossLevels r2 name dom, r2)) /\
  (forall sub (r0 : Resolvers G N) w,
     getWildcard r0 sub = Some w ->
     checkLevel fuel resp sub r0 = Returned (respMatchesWildcard w resp, r0)) /\
  (forall sub (r0 : Resolvers G N) d a r',
     getWildcard r0 sub = None ->
     wildcardTest fuel (setWildcard r0 sub {| Detected := false; Answers := [] |}) sub
     = Returned (d, a, r') ->
     checkLevel fuel resp sub r0
     = Returned (respMatchesWildcard {| Detected := d; Answers := a |} resp,
                 setWildcard r' sub {| Detected := d; Answers := a |})) /\
  (forall p d : string,
     let labels := Split (p ++ String "." d) in
     head (suffixesBelow labels (length (Split d))) = Some d /\
     last (suffixesBelow labels (length (Split d))) = Some (strip labels 1)).
Proof.
  intros dom. split; [| split; [| split; [| split]]].
  - intros r1 Hgood. unfold WildcardDetected. now rewrite Hgood.
  - intros r1 q qs Hgood Hq name labels base subs.
    unfold WildcardDetected. rewrite Hgood, Hq. cbn [negb].
    fold name. fold dom. fold labels. fold base.
    destruct (Nat.ltb_spec base (length labels)) as [Hlt | Hge].
    + destruct (Z.ltb_spec (Z.of_nat base) (Z.of_nat (length labels))); [| lia].
      unfold sliceFrom. change (Z.to_nat 1) with 1%nat.
      rewrite detectLoop_walk, length_drop.
      replace (Z.to_nat (Z.of_nat (length labels - 1) - Z.of_nat base + 1))
        with (length labels - base)%nat by lia.
      rewrite suffixesBelow_shift. reflexivity.
    + destruct (Z.ltb_spec (Z.of_nat base) (Z.of_nat (length labels))); [lia |].
      rewrite detectLoop_walk.
      destruct (Nat.eqb_spec (length labels) base) as [Heq | Hne].
      * replace (Z.to_nat (Z.of_nat (length labels) - Z.of_nat base + 1))
          with 1%nat by lia.
        cbn [seq rev app map]. unfold strip, labels.
        rewrite drop_0, Join_Split. reflexivity.
      * replace (Z.to_nat (Z.of_nat (length labels) - Z.of_nat base + 1))
          with 0%nat by lia.
        reflexivity.
  - intros sub r0 w. apply checkLevel_hit.
  - intros sub r0 d a r'. apply checkLevel_miss.
  - intros p d labels. unfold suffixesBelow.
    destruct (Split_cons p) as [x [xs Hp]].
    assert (Hlen : (length labels - length (Split d))%nat = S (length xs)).
    { unfold labels. rewrite Split_app_dot, length_app, Hp. cbn [length]. lia. }
    split.
    + rewrite Hlen, rev_seq_S. cbn [map head].
      f_equal. change (1 + length xs)%nat with (S (length xs)).
      rewrite <- Hlen. apply strip_to_domain.
    + rewrite Hlen. cbn [seq]. cbn [rev]. rewrite map_app. cbn [map].
      apply last_snoc.
Qed.

End Detection.

(** ** Runs on the bench *)

Section BenchRuns.
Import TestBench.

Lemma replay_ok : rand_ok (G := list Z).
Proof.
  split.
  - intros n [| x g] Hn; cbn; [lia | apply Z.mod_pos_bound; lia].
  - intros [| x g]; cbn; [lia | apply Z.mod_pos_bound; lia].
Qed.

(** The witness of [UnlikelyName_spec]: draws for which the label is six
    dashes, so that the name comes back empty. *)
Lemma UnlikelyName_spec_witness :
  rawLabel "domain.com" dashDraws = ("------", []) /\
  UnlikelyName "domain.com" dashDraws = (EmptyString, []).
Proof.
  destruct (UnlikelyName_spec "domain.com" dashDraws replay_ok)
    as (k & label & g1 & g' & _ & _ & Hraw & _ & _ & _ & _ & Hname).
  assert (Hrun : rawLabel "domain.com" dashDraws = ("------", []))
    by (vm_compute; reflexivity).
  rewrite Hrun in Hraw. injection Hraw as <- <-.
  split; [exact Hrun | exact Hname].
Defined.

(** C9, as stated, fails: under a name of 250 bytes the interval
    [[MinLabelLen, min(MaxLabelLen, 253 - len(sub) - 1)]] is empty, its upper
    end being 2, and [UnlikelyName] still returns a label of 6
    characters. *)
Lemma UnlikelyName_long_sub :
  len longSub = 250 /\
  Z.min MaxLabelLen (MaxDNSNameLen - len longSub - 1) = 2 /\
  UnlikelyName longSub ([] : list Z) = ("bbbbbb." ++ longSub, []) /\
  ~ (MinLabelLen <= len "bbbbbb"
     <= Z.min MaxLabelLen (MaxDNSNameLen - len longSub - 1)).
Proof.
  split; [vm_compute; reflexivity |].
  split; [vm_compute; reflexivity |].
  split; [vm_compute; reflexivity |].
  vm_compute. intros [_ Hle]. now apply Hle.
Qed.

(** A name is built from the shuffled characters when the draws are all
    zero. *)
Example UnlikelyName_zero_draws :
  UnlikelyName "domain.com" ([] : list Z) = ("bbbbbb.domain.com", []).
Proof. vm_compute. reflexivity. Qed.

(** The witness of [wildcardTest_intersection]: the probe of
    [wildcard.domain.com] against the test server, whose name loops succeed
    at the first try. *)
Lemma wildcardTest_intersection_witness :
  exists final r',
    wildcardTest 1 pool1 "wildcard.domain.com" = Returned (true, final, r') /\
    map Data final = ["192.168.1.64"] /\
    NoDup (map answerKey final).
Proof.
  assert (Hname : unlikelyLoop 1 "wildcard.domain.com" ([] : list Z)
                  = Returned ("bbbbbb.wildcard.domain.com", []))
    by (vm_compute; reflexivity).
  destruct (wildcardTest_intersection 1 pool1 "wildcard.domain.com"
              {| qps := 100; raddress := "127.0.0.1:5353" |}
              "bbbbbb.wildcard.domain.com" "bbbbbb.wildcard.domain.com"
              "bbbbbb.wildcard.domain.com" [] [] []
              eq_refl Hname Hname Hname)
    as (detected & final & r' & d0 & ans0 & r0 & d1 & ans1 & r1 & ans2 & r2
        & Hrun & _ & _ & _ & _ & Hnd & _).
  assert (Hval : exists r'', wildcardTest 1 pool1 "wildcard.domain.com"
                 = Returned (true,
                             [{| AnsName := "bbbbbb.wildcard.domain.com";
                                 AnsType := TypeA; Data := "192.168.1.64" |}], r'')).
  { vm_compute. eexists. reflexivity. }
  destruct Hval as [r'' Hval]. rewrite Hrun in Hval.
  injection Hval as Hd Hf _. subst detected final.
  eexists. exists r'.
  split; [exact Hrun |]. split; [reflexivity | exact Hnd].
Defined.

(** The witness of [testIPsAcrossLevels_walk]: five labels over a base of
    two. *)
Lemma testIPsAcrossLevels_walk_witness :
  testIPsAcrossLevels pool2 "a.b.c.example.com" "example.com" = true.
Proof.
  destruct (testIPsAcrossLevels_walk pool2 "a.b.c.example.com" "example.com")
    as [_ [Hwalk _]].
  rewrite Hwalk; [vm_compute; reflexivity | vm_compute; lia].
Defined.

(** C8, as stated, fails: with a wildcard at [b.c.example.com] only, the
    walk of the source starts at [b.c.example.com], stops at
    [c.example.com] and answers true on the records of the first level,
    while the walk from depth 1 outward stops at once at [c.example.com] and
    answers false. *)
Lemma testIPsAcrossLevels_not_outward :
  testIPsAcrossLevels pool2 "a.b.c.example.com" "example.com" = true /\
  specTestIPsAcrossLevels pool2 "a.b.c.example.com" "example.com" = false /\
  testIPsAcrossLevels pool2 "a.b.c.example.com" "example.com"
  <> specTestIPsAcrossLevels pool2 "a.b.c.example.com" "example.com".
Proof.
  split; [vm_compute; reflexivity |].
  split; [vm_compute; reflexivity |].
  vm_compute. discriminate.
Qed.

(** The witness of [WildcardDetected_walk]: the second case of the test
    file, for which the pool adopts its resolver as detector. *)
Lemma WildcardDetected_walk_witness :
  verdict (WildcardDetected 1 pool0 (response "jeff_foley.wildcard.domain.com")
             "domain.com")
  = Some true.
Proof.
  destruct (WildcardDetected_walk 1 pool0
              (response "jeff_foley.wildcard.domain.com") "domain.com")
    as [_ [Hwalk _]].
  rewrite (Hwalk pool1 _ _ eq_refl eq_refl).
  vm_compute. reflexivity.
Defined.

(** C1, as stated, fails: for a question name that is the base domain
    itself the source checks that name, and here finds the wildcard under it
    and answers true; checking only the suffixes that are a label short of the
    name checks nothing and leaves the answer to the cross-level heuristic,
    which is false. *)
Lemma WildcardDetected_checks_the_name :
  verdict (WildcardDetected 1 pool0 (response "wildcard.domain.com")
             "wildcard.domain.com") = Some true /\
  verdict (specWildcardDetected 1 pool0 (response "wildcard.domain.com")
             "wildcard.domain.com") = Some false /\
  WildcardDetected 1 pool0 (response "wildcard.domain.com") "wildcard.domain.com"
  <> specWildcardDetected 1 pool0 (response "wildcard.domain.com")
       "wildcard.domain.com".
Proof.
  split; [vm_compute; reflexivity |].
  split; [vm_compute; reflexivity |].
  intros Heq. apply (f_equal verdict) in Heq. vm_compute in Heq. discriminate.
Qed.

End BenchRuns.

End WildcardSpec.

(** * Further properties of the engine *)

Module EngineMore.
Import Time Dns GoStrings Engine Lifecycle EngineSpec.

Lemma bind_ret_inv {A B} (m : outcome A) (f : A -> outcome B) (b : B) :
  m ≫= f = Returned b -> exists a, m = Returned a /\ f a = Returned b.
Proof.
  destruct m as [a | msg |]; cbn; intros Hb; try discriminate.
  now exists a.
Qed.

(** ** [calcNewRate] *)

Lemma quot_Second_bound (red : Z) : red <> 0 -> Z.quot Second red <= Second.
Proof.
  intros Hred. unfold Second.
  destruct (Z.lt_trichotomy red 0) as [Hneg | [? | Hpos]]; [| contradiction |].
  - assert (Z.quot 1000000000 red <= 0); [| lia].
    Z.quot_rem_to_equations. nia.
  - rewrite Z.quot_div_nonneg by lia.
    apply Z.div_le_upper_bound; nia.
Qed.

(** X1. Whatever the samples, a [calcNewRate] that returns leaves the
    configured rate alone, and the limiter either as it was, or at the
    configured rate, or at a rate between 2 and 1000000000 a second. *)
Theorem calcNewRate_rate_range (r r' : baseResolver) (times : list Time) :
  calcNewRate r times = Returned r' ->
  perSec r' = perSec r /\
  (rlimit r' = rlimit r \/
   rate (rlimit r') = perSec r \/
   2 <= rate (rlimit r') <= 1000000000).
Proof.
  unfold calcNewRate.
  destruct (Z.of_nat (length times) <? minSampleSetSize).
  - intros Hret. injection Hret as <-. split; [reflexivity | now left].
  - cbv zeta. set (red := wrap64 _).
    destruct (Z.eqb_spec red 0) as [? | Hne]; [discriminate |].
    intros Hret. injection Hret as <-. split; [reflexivity |].
    right. cbn [setRateLimit set_rlimit rlimit rate].
    destruct (Z.leb_spec (Z.quot Second red) 1) as [_ | Hbig]; [now left |].
    right. pose proof (quot_Second_bound red Hne) as Hle.
    unfold Second in *. lia.
Qed.

(** The witness of [calcNewRate_rate_range]. *)
Lemma calcNewRate_rate_range_witness :
  2 <= rate (rlimit (setRateLimit Bench.resolver0 6)) <= 1000000000.
Proof.
  destruct (calcNewRate_rate_range Bench.resolver0
              (setRateLimit Bench.resolver0 6) Bench.evenSamples)
    as [_ [Hsame | [Hper | Hrange]]].
  - vm_compute. reflexivity.
  - vm_compute in Hsame. discriminate.
  - vm_compute in Hper. discriminate.
  - exact Hrange.
Defined.

Lemma reduced_zero_iff (a : Z) :
  minInt64 <= a <= Second ->
  (wrap64 (a - Z.quot (float64_of_int64 a) 4) = 0 <-> a = 0).
Proof.
  intros Ha. destruct (Z.lt_trichotomy a 0) as [Hneg | [-> | Hpos]].
  - pose proof (reduce_quarter_neg a ltac:(lia)). lia.
  - split; [reflexivity | intros _; vm_compute; reflexivity].
  - rewrite (reduce_quarter a ltac:(lia)).
    unfold Second in *. split; [| lia].
    intros Hz. exfalso. revert Hz. Z.div_mod_to_equations. lia.
Qed.

Lemma meanGap_range (lo : Z) (times : list Time) :
  minSampleSetSize <= Z.of_nat (length times) ->
  Forall (inWindow lo) times ->
  minInt64 <= meanGap times <= maxInt64.
Proof.
  intros Hlen Hall. unfold minSampleSetSize in Hlen.
  assert (Hne : times <> []) by (destruct times; [cbn in Hlen; lia | congruence]).
  destruct (window_hd_last lo times Hne Hall) as [Hhd Hlast].
  unfold inWindow in Hhd, Hlast. unfold meanGap, minInt64, maxInt64.
  set (d := Z.of_nat (length times) - 1).
  assert (4 <= d) by (unfold d; lia).
  set (total := List.last times 0 - hd 0 times).
  assert (- 2 ^ 63 < total < 2 ^ 63) by (unfold total; lia).
  Z.quot_rem_to_equations. nia.
Qed.

(** X2. For at least [minSampleSetSize] samples within a window of less
    than [2 ^ 63] ns, [calcNewRate] panics exactly when the samples span
    fewer nanoseconds than there are gaps between them, forward or
    backward. *)
Theorem calcNewRate_panics_iff (r : baseResolver) (times : list Time) (lo : Z) :
  minSampleSetSize <= Z.of_nat (length times) ->
  Forall (inWindow lo) times ->
  (calcNewRate r times = Panic "integer divide by zero"
   <-> Z.abs (List.last times 0 - hd 0 times) < Z.of_nat (length times) - 1).
Proof.
  intros Hlen Hall. rewrite (calcNewRate_enough r times Hlen). cbv zeta.
  rewrite (sumGaps_total lo times Hall). fold (meanGap times).
  pose proof (meanGap_range lo times Hlen Hall) as Hrange.
  set (a := Z.min (meanGap times) Second).
  assert (Ha : minInt64 <= a <= Second)
    by (unfold a, Second, minInt64 in *; lia).
  pose proof (reduced_zero_iff a Ha) as Hzero.
  assert (Hmean : meanGap times = 0
                  <-> Z.abs (List.last times 0 - hd 0 times)
                      < Z.of_nat (length times) - 1).
  { unfold meanGap, minSampleSetSize in *.
    set (d := Z.of_nat (length times) - 1).
    assert (4 <= d) by (unfold d; lia).
    set (total := List.last times 0 - hd 0 times).
    rewrite Z.quot_small_iff by lia. lia. }
  assert (Hmin : a = 0 <-> meanGap times = 0) by (unfold a, Second; lia).
  destruct (Z.eqb_spec (wrap64 (a - Z.quot (float64_of_int64 a) 4)) 0)
    as [Hz | Hnz].
  - split; [intros _ | reflexivity]. now apply Hmean, Hmin, Hzero.
  - split; [discriminate |]. intros Habs. exfalso.
    now apply Hnz, Hzero, Hmin, Hmean.
Qed.

(** The witness of [calcNewRate_panics_iff]: five samples a nanosecond
    apart but for the last. *)
Lemma calcNewRate_panics_iff_witness :
  calcNewRate Bench.resolver0 [100; 101; 102; 103; 103]
  = Panic "integer divide by zero".
Proof.
  apply (calcNewRate_panics_iff Bench.resolver0 [100; 101; 102; 103; 103] 0).
  - vm_compute. discriminate.
  - repeat constructor; unfold inWindow; lia.
  - vm_compute. reflexivity.
Defined.

(** X3. Only the first sample, the last sample and their number count:
    two sample sets within such a window that agree on these get the same
    outcome of [calcNewRate]. *)
Theorem calcNewRate_ends_only (r : baseResolver) (times times' : list Time)
    (lo lo' : Z) :
  Forall (inWindow lo) times ->
  Forall (inWindow lo') times' ->
  length times = length times' ->
  hd 0 times = hd 0 times' ->
  List.last times 0 = List.last times' 0 ->
  calcNewRate r times = calcNewRate r times'.
Proof.
  intros Hw Hw' Hlen Hhd Hlast. unfold calcNewRate.
  rewrite (sumGaps_total lo times Hw), (sumGaps_total lo' times' Hw').
  now rewrite Hlen, Hhd, Hlast.
Qed.

(** The witness of [calcNewRate_ends_only]: the middle samples are
    moved. *)
Lemma calcNewRate_ends_only_witness :
  calcNewRate Bench.resolver0 Bench.evenSamples
  = calcNewRate Bench.resolver0 [0; 5; 3; 761904759; 761904760].
Proof.
  apply (calcNewRate_ends_only Bench.resolver0 Bench.evenSamples
           [0; 5; 3; 761904759; 761904760] 0 0);
    try reflexivity; repeat constructor; unfold inWindow; lia.
Defined.

(** X4. For such samples with a positive mean gap [a] (in whole
    nanoseconds, capped at a second): up to 666666666 ns the rate installed
    is at least 2, and above it the configured rate is installed; so a mean
    gap of a second or more always falls back to the configured rate. *)
Theorem calcNewRate_threshold (r : baseResolver) (times : list Time) (lo : Z) :
  minSampleSetSize <= Z.of_nat (length times) ->
  Forall (inWindow lo) times ->
  let a := Z.min (meanGap times) Second in
  (0 < a <= 666666666 ->
     exists v, 2 <= v /\ calcNewRate r times = Returned (setRateLimit r v)) /\
  (666666666 < a ->
     calcNewRate r times = Returned (setRateLimit r (perSec r))).
Proof.
  intros Hlen Hall a. rewrite (calcNewRate_enough r times Hlen). cbv zeta.
  rewrite (sumGaps_total lo times Hall). fold (meanGap times). fold a.
  assert (Hcap : a <= Second) by (unfold a; lia).
  split; intros Ha.
  - rewrite (reduce_quarter a ltac:(lia)).
    assert (Hred : 0 < (3 * a + 3) / 4 <= 500000000)
      by (Z.div_mod_to_equations; lia).
    destruct (Z.eqb_spec ((3 * a + 3) / 4) 0) as [? | _]; [lia |].
    rewrite Z.quot_div_nonneg by (unfold Second; lia).
    assert (Hv : 2 <= Second / ((3 * a + 3) / 4)).
    { apply Z.div_le_lower_bound; unfold Second; lia. }
    destruct (Z.leb_spec (Second / ((3 * a + 3) / 4)) 1) as [? | _]; [lia |].
    exists (Second / ((3 * a + 3) / 4)). split; [exact Hv | reflexivity].
  - rewrite (reduce_quarter a ltac:(lia)).
    assert (Hred : 500000000 < (3 * a + 3) / 4 <= Second)
      by (unfold Second in *; Z.div_mod_to_equations; lia).
    destruct (Z.eqb_spec ((3 * a + 3) / 4) 0) as [? | _]; [lia |].
    rewrite Z.quot_div_nonneg by (unfold Second in *; lia).
    assert (Hv : Second / ((3 * a + 3) / 4) <= 1).
    { apply Z.lt_succ_r. apply Z.div_lt_upper_bound; unfold Second in *; lia. }
    destruct (Z.leb_spec (Second / ((3 * a + 3) / 4)) 1) as [_ | ?]; [| lia].
    reflexivity.
Qed.

(** The witness of [calcNewRate_threshold]: five samples a second
    apart. *)
Lemma calcNewRate_threshold_witness :
  calcNewRate Bench.resolver0
    [0; 1000000000; 2000000000; 3000000000; 4000000000]
  = Returned (setRateLimit Bench.resolver0 100).
Proof.
  destruct (calcNewRate_threshold Bench.resolver0
              [0; 1000000000; 2000000000; 3000000000; 4000000000] 0)
    as [_ Hslow].
  - vm_compute. discriminate.
  - repeat constructor; unfold inWindow; lia.
  - apply Hslow. vm_compute. reflexivity.
Defined.

(** ** The sample buffer *)

Lemma ascending_snoc (l : list Time) (x : Time) :
  ascending l -> Forall (fun y => y <= x) l -> ascending (l ++ [x]).
Proof.
  induction l as [| a l IH]; intros Hasc Hle; [exact I |].
  inversion Hle as [| ? ? Ha Hl]; subst.
  destruct l as [| b l]; [cbn; split; [exact Ha | exact I] |].
  destruct Hasc as [Hab Hasc]. cbn [app]. split; [exact Hab |].
  exact (IH Hasc Hl).
Qed.

Lemma ascending_mean (times : list Time) :
  ascending times -> 0 <= meanGap times.
Proof.
  intros Hasc.
  assert (Hspan : hd 0 times <= List.last times 0).
  { destruct times as [| a l]; [cbn; lia |]. cbn [hd].
    rewrite last_cons_default. revert a Hasc.
    induction l as [| b l IH]; intros a Hasc; [cbn; lia |].
    destruct Hasc as [Hab Hasc]. rewrite last_cons_default.
    specialize (IH b Hasc). lia. }
  unfold meanGap.
  destruct times as [| a [| b l]]; [vm_compute; discriminate | |].
  - cbn [hd length]. rewrite last_cons_default. cbn [List.last].
    replace (a - a) with 0 by lia. vm_compute. discriminate.
  - apply Z.quot_pos; [lia |]. cbn [length]. lia.
Qed.

(** The buffer is in order and none of its samples is later than [t]. *)
Lemma onMeasure_buffer (s : sampler) (o : observed) (t : Time) :
  ascending (responseTimes s) ->
  Forall (fun y => y <= t) (responseTimes s) ->
  ascending (responseTimes (fst (onMeasure s o))) /\
  Forall (fun y => y <= t) (responseTimes (fst (onMeasure s o))) /\
  Forall ascending (snd (onMeasure s o)).
Proof.
  intros Hasc Hle. unfold onMeasure.
  destruct (measured o) as [u |];
    [| split; [exact Hasc | split; [exact Hle | constructor]]].
  cbn [collect responseTimes stoppedAt last].
  destruct (IsZero u); cbn [fst snd update responseTimes].
  - split; [exact Hasc | split; [exact Hle | constructor]].
  - split; [exact I | split; [constructor | repeat constructor; exact Hasc]].
Qed.

Lemma onResponse_buffer (s : sampler) (req : resolveRequest) (o : observed)
    (t : Time) :
  t <= rtime o ->
  ascending (responseTimes s) ->
  Forall (fun y => y <= t) (responseTimes s) ->
  ascending (responseTimes (fst (onResponse s req o))) /\
  Forall (fun y => y <= rtime o) (responseTimes (fst (onResponse s req o))) /\
  Forall ascending (snd (onResponse s req o)).
Proof.
  intros Ht Hasc Hle.
  assert (Hle' : Forall (fun y => y <= rtime o) (responseTimes s)).
  { eapply List.Forall_impl; [| exact Hle]. cbv beta. intros y Hy. lia. }
  assert (Hadd : ascending (responseTimes s ++ [rtime o])
                 /\ Forall (fun y => y <= rtime o) (responseTimes s ++ [rtime o])).
  { split; [now apply ascending_snoc |].
    apply Forall_app. split; [exact Hle' | repeat constructor; lia]. }
  destruct (sampled s req) eqn:Hs.
  - rewrite (onResponse_sampled s req o Hs). cbn [fst snd responseTimes].
    destruct Hadd as [Ha1 Ha2].
    split; [exact Ha1 | split; [exact Ha2 | constructor]].
  - rewrite (onResponse_not_sampled s req o Hs).
    destruct ((minSampleSetSize <? Z.of_nat (length (responseTimes s)))
              && (minSamplingTime <? Sub (rtime o) (last s)));
      cbn [fst snd responseTimes].
    + split; [exact I | split; [constructor | repeat constructor; exact Hasc]].
    + split; [exact Hasc | split; [exact Hle' | constructor]].
Qed.

Lemma responsesIter_buffer (r : baseResolver) (s : sampler) (o : observed)
    (t : Time) :
  t <= rtime o ->
  ascending (responseTimes s) ->
  Forall (fun y => y <= t) (responseTimes s) ->
  ascending (responseTimes (snd (fst (responsesIter r s o)))) /\
  Forall (fun y => y <= rtime o) (responseTimes (snd (fst (responsesIter r s o)))) /\
  Forall ascending (snd (responsesIter r s o)).
Proof.
  intros Ht Hasc Hle.
  destruct (onMeasure_buffer s o t Hasc Hle) as (Hasc1 & Hle1 & Hg1).
  unfold responsesIter. destruct (onMeasure s o) as [s1 g1].
  cbn [fst snd] in Hasc1, Hle1, Hg1.
  assert (Hkeep : ascending (responseTimes s1) /\
                  Forall (fun y => y <= rtime o) (responseTimes s1) /\
                  Forall ascending g1).
  { split; [exact Hasc1 | split; [| exact Hg1]].
    eapply List.Forall_impl; [| exact Hle1]. cbv beta. intros y Hy. lia. }
  destruct (readMsgResult o) as [m |]; [| exact Hkeep].
  destruct (Questions m) as [| q qs]; [exact Hkeep |].
  destruct (xchgRemove (Id m) (QName q) (xchgs r)) as [[req |] tbl];
    [| exact Hkeep].
  destruct (onResponse_buffer s1 req o t Ht Hasc1 Hle1) as (Hasc2 & Hle2 & Hg2).
  destruct (onResponse s1 req o) as [s2 g2]. cbn [fst snd] in *.
  split; [exact Hasc2 | split; [exact Hle2 |]]. apply Forall_app. now split.
Qed.

(** X5. While the arrival times that the receive loop reads never go
    back, every sample set it hands to [calcNewRate] is in the order of
    arrival, so that its mean gap is not negative. *)
Theorem responses_samples_ascending (obs : list observed) :
  forall (r : baseResolver) (s : sampler) (t : Time),
    ascending (responseTimes s) ->
    Forall (fun y => y <= t) (responseTimes s) ->
    clockMonotone t obs ->
    Forall (fun times => ascending times /\ 0 <= meanGap times)
           (snd (responsesRun r s obs)).
Proof.
  induction obs as [| o obs IH]; intros r s t Hasc Hle Hclock;
    cbn [responsesRun]; [constructor |].
  destruct Hclock as [Ht Hclock].
  destruct (responsesIter_buffer r s o t Ht Hasc Hle) as (Hasc1 & Hle1 & Hg1).
  destruct (responsesIter r s o) as [[r1 s1] g1]. cbn [fst snd] in *.
  specialize (IH r1 s1 (rtime o) Hasc1 Hle1 Hclock).
  destruct (responsesRun r1 s1 obs) as [[r2 s2] g2]. cbn [snd] in *.
  apply Forall_app. split; [| exact IH].
  eapply List.Forall_impl; [| exact Hg1]. cbv beta.
  intros times Htimes. split; [exact Htimes | now apply ascending_mean].
Qed.

(** The witness of [responses_samples_ascending]: one iteration after
    the burst, which starts a recomputation. *)
Lemma responses_samples_ascending_witness :
  Forall (fun times => ascending times /\ 0 <= meanGap times)
         [[4000; 5000; 6000; 7000; 8000; 9000]].
Proof.
  apply (responses_samples_ascending [Bench.observed0] Bench.resolver2
           Bench.sampler1 9000).
  - cbn. lia.
  - repeat constructor; lia.
  - cbn. split; [vm_compute; discriminate | exact I].
Defined.

(** ** The dispatch loop *)

Section Dispatch.
Context `{PackageDecls}.

Lemma sendQueriesIter_signals (r : baseResolver) (d : dispatcher) (o : dispatched) :
  IsZero (sendNow o) = false ->
  let '(_, d', signals) := sendQueriesIter r d o in
  (signals = [] /\ measuring d' = measuring d) \/
  (exists t, signals = [t] /\ measuring d' = negb (measuring d) /\
             IsZero t = measuring d).
Proof.
  intros Hnow. unfold sendQueriesIter.
  destruct (queueNext (xchgQueue r)) as [[req rest] |]; [| now left].
  destruct (measuring d) eqn:Hm; cbn [negb andb].
  - destruct (_ && _); [| now left].
    right. exists zero. now repeat split.
  - destruct (0 <? _); [| now left].
    right. exists (sendNow o). now repeat split.
Qed.

(** X6. As long as the clock never reads the zero instant, the signals
    that the dispatch loop sends on [r.measure] take turns: a begin is
    followed by an end and an end by a begin, and the first signal of a loop
    that is not measuring is a begin. *)
Theorem sendQueries_signals_alternate (obs : list dispatched) :
  forall (r : baseResolver) (d : dispatcher),
    Forall (fun o => IsZero (sendNow o) = false) obs ->
    alternating (negb (measuring d)) (snd (sendQueriesRun r d obs)).
Proof.
  induction obs as [| o obs IH]; intros r d Hobs; cbn [sendQueriesRun];
    [exact I |].
  inversion Hobs as [| ? ? Ho Hrest]; subst.
  pose proof (sendQueriesIter_signals r d o Ho) as Hiter.
  destruct (sendQueriesIter r d o) as [[r1 d1] s1].
  specialize (IH r1 d1 Hrest).
  destruct (sendQueriesRun r1 d1 obs) as [[r2 d2] s2]. cbn [snd] in *.
  destruct Hiter as [[-> Hm] | [t [-> [Hm Hz]]]].
  - cbn [app]. now rewrite <- Hm.
  - cbn [app alternating]. rewrite Hm in IH. split; [| exact IH].
    destruct (measuring d); cbn [negb]; exact Hz.
Qed.

End Dispatch.

(** The witness of [sendQueries_signals_alternate]: the queue holds two
    requests, so the first dispatch begins a measurement, and the second, half
    a second later with the queue empty, ends it. *)
Lemma sendQueries_signals_alternate_witness :
  snd (sendQueriesRun (H := Bench.decls) MoreBench.resolver3 initDispatcher
         MoreBench.dispatch0)
  = [1000000000; 0] /\
  alternating true [1000000000; 0].
Proof.
  split; [vm_compute; reflexivity |].
  apply (sendQueries_signals_alternate (H := Bench.decls) MoreBench.dispatch0
           MoreBench.resolver3 initDispatcher).
  repeat constructor.
Defined.

(** ** Draining *)

Section Draining.
Context `{PackageDecls}.

Lemma each_delivers_once (exchange : exchanger) (r : baseResolver) (read : readMsg) :
  exists res,
    delivered (each exchange r read)
    = (delivered r ++ [(Result (Req read), res)])%list /\
    readMsgs (each exchange r read) = readMsgs r /\
    xchgs (each exchange r read) = xchgs r.
Proof.
  unfold each, processMessage.
  destruct (negb (Rcode (Resp read) =? RcodeSuccess)).
  - eexists. rewrite returnRequest_delivered. now repeat split.
  - destruct (Truncated (Resp read)).
    + unfold tcpExchange.
      destruct (exchange _ _ _) as [reply [err |]];
        eexists; rewrite returnRequest_delivered; now repeat split.
    + eexists. rewrite returnRequest_delivered. now repeat split.
Qed.

Lemma fold_each (exchange : exchanger) (reads : list readMsg) :
  forall r : baseResolver,
    map fst (delivered (fold_left (each exchange) reads r))
    = (map fst (delivered r) ++ map (fun rd => Result (Req rd)) reads)%list /\
    readMsgs (fold_left (each exchange) reads r) = readMsgs r /\
    xchgs (fold_left (each exchange) reads r) = xchgs r.
Proof.
  induction reads as [| rd reads IH]; intros r; cbn [fold_left map].
  - now rewrite app_nil_r.
  - destruct (each_delivers_once exchange r rd) as (res & Hd & Hq & Hx).
    destruct (IH (each exchange r rd)) as (Hd' & Hq' & Hx').
    rewrite Hd', Hq', Hx', Hd, Hq, Hx, map_app, <- app_assoc.
    now repeat split.
Qed.

(** X7. The drain of the read queue after the done signal leaves the
    queue empty and the exchange table as it was, and completes the request of
    every read that waited exactly once: the channels written to are, up to
    their order, those of the waiting reads. *)
Theorem handleReads_drain_once (exchange : exchanger) (r : baseResolver) :
  readMsgs (handleReadsDrain exchange r) = [] /\
  xchgs (handleReadsDrain exchange r) = xchgs r /\
  Permutation
    (map fst (delivered (handleReadsDrain exchange r)))
    (map fst (delivered r) ++ map (fun rd => Result (Req rd)) (readMsgs r))%list.
Proof.
  unfold handleReadsDrain.
  destruct (fold_each exchange (readMsgs r) (set_readMsgs r [])) as (Hd & Hq & Hx).
  rewrite Hd, Hq, Hx. now repeat split.
Qed.

(** X8. The drain of the exchange table after the done signal leaves the
    table empty and completes, in the order of the table, every request in it
    that has a message with no response, the retryable flag cleared and the
    code [ResolverErrRcode]; nothing else is completed. *)
Theorem timeouts_drain_stopped (r : baseResolver) :
  xchgs (timeoutsDrain r) = [] /\
  delivered (timeoutsDrain r)
  = (delivered r ++
       map (fun req =>
              (Result req,
               makeResolveResult None false
                 ("Resolver " ++ address r ++ " has stopped") ResolverErrRcode))
           (List.filter hasMsg (xchgs r)))%list.
Proof.
  unfold timeoutsDrain, xchgRemoveAll. split.
  - assert (Hx : forall l r1, xchgs r1 = [] ->
              xchgs (fold_left
                       (fun r' req =>
                          match ReqMsg req with
                          | Some _ =>
                              returnRequest r' req
                                (makeResolveResult None false
                                   ("Resolver " ++ address r ++ " has stopped")
                                   ResolverErrRcode)
                          | None => r'
                          end) l r1) = []).
    { induction l as [| req l IH]; intros r1 Hr1; [exact Hr1 |].
      cbn [fold_left]. apply IH. now destruct (ReqMsg req). }
    apply Hx. reflexivity.
  - now rewrite fold_returnRequest.
Qed.

End Draining.

(** ** Construction and stopping *)

(** X9. On an engine whose [done] channel is closed exactly when its
    flag is set, [Stop] returns without closing the channel a second time,
    leaves the flag set and the channel closed, keeps that link, and a further
    [Stop] changes nothing. *)
Theorem Stop_idempotent (e : engine) :
  lifecycle_ok e ->
  exists e',
    Stop e = Returned e' /\ Stopped e' = true /\ doneClosed e' = true /\
    lifecycle_ok e' /\ Stop e' = Returned e'.
Proof.
  unfold lifecycle_ok, Stop, Stopped, closeChan. intros Hok.
  destruct e as [r closed]. cbn [res doneClosed] in *.
  destruct (stopped r) eqn:Hs; subst closed; cbn.
  - eexists. repeat split.
  - eexists. repeat split.
Qed.

(** The witness of [Stop_idempotent]. *)
Lemma Stop_idempotent_witness :
  exists e', Stop MoreBench.engine0 = Returned e' /\ Stop e' = Returned e'.
Proof.
  destruct (Stop_idempotent MoreBench.engine0 eq_refl)
    as (e' & Hstop & _ & _ & _ & Hagain).
  now exists e'.
Defined.

(** X10. [NewBaseResolver] builds no resolver for a rate that is not
    positive; the resolver it builds is running, with its channel open and
    the rate of its limiter and the configured rate positive; and
    [calcNewRate] keeps both rates positive. *)
Theorem rates_stay_positive `{NetDecls} :
  (forall addr perSec dialErr deadlineErr,
     perSec <= 0 -> NewBaseResolver addr perSec dialErr deadlineErr = None) /\
  (forall addr perSec dialErr deadlineErr e,
     NewBaseResolver addr perSec dialErr deadlineErr = Some e ->
     rate_ok (res e) /\ lifecycle_ok e /\ Stopped e = false) /\
  (forall r times r',
     rate_ok r -> calcNewRate r times = Returned r' -> rate_ok r').
Proof.
  split; [| split].
  - intros addr perSec dialErr deadlineErr Hle. unfold NewBaseResolver.
    destruct (Z.leb_spec perSec 0); [reflexivity | lia].
  - intros addr perSec dialErr deadlineErr e. unfold NewBaseResolver.
    destruct (Z.leb_spec perSec 0) as [| Hpos]; [discriminate |].
    destruct dialErr; [discriminate |]. destruct deadlineErr; [discriminate |].
    intros He. injection He as <-. unfold rate_ok, lifecycle_ok, Stopped.
    cbn. repeat split; lia.
  - intros r times r' [Hrate Hper]. unfold calcNewRate, rate_ok.
    destruct (Z.of_nat (length times) <? minSampleSetSize).
    + intros Hret. injection Hret as <-. now split.
    + cbv zeta. set (red := wrap64 _).
      destruct (red =? 0); [discriminate |].
      intros Hret. injection Hret as <-.
      cbn [setRateLimit set_rlimit rlimit rate perSec].
      split; [| exact Hper].
      destruct (Z.leb_spec (Z.quot Second red) 1); lia.
Qed.

(** The witness of [rates_stay_positive]. *)
Lemma rates_stay_positive_witness :
  rate_ok (setRateLimit Bench.resolver0 6).
Proof.
  destruct (@rates_stay_positive MoreBench.netDecls) as [_ [_ Hkeep]].
  apply (Hkeep Bench.resolver0 Bench.evenSamples).
  - unfold rate_ok. vm_compute. now split.
  - vm_compute. reflexivity.
Defined.

(** ** From the socket to the requester *)

Section Delivery.
Context `{PackageDecls}.

(** X11. When the receive loop reads a success response that is not
    truncated and matches an in-flight request, and the read queue was empty,
    the next turn of the read-handling loop sends that response, without
    error, on the channel of the request, which is then neither in the table
    nor in the read queue. *)
Theorem response_reaches_requester (exchange : exchanger) (r : baseResolver)
    (s : sampler) (o : observed) (m : Msg) (q : Question) (qs : list Question)
    (req : resolveRequest) (t : list resolveRequest) :
  readMsgs r = [] ->
  readMsgResult o = Some m ->
  Questions m = q :: qs ->
  xchgRemove (Id m) (QName q) (xchgs r) = (Some req, t) ->
  Rcode m = RcodeSuccess ->
  Truncated m = false ->
  let r' := handleReadsIter exchange (fst (fst (responsesIter r s o))) in
  delivered r'
  = (delivered r ++
       [(Result req, {| ResMsg := Some m; Again := false; ResErr := None |})])%list /\
  readMsgs r' = [] /\ xchgs r' = t.
Proof.
  intros Hq Hread Hqs Hrm Hrc Htc. unfold responsesIter.
  destruct (onMeasure s o) as [s1 g1]. rewrite Hread, Hqs, Hrm.
  destruct (onResponse s1 req o) as [s2 g2]. cbn [fst].
  unfold handleReadsIter, set_readMsgs, set_xchgs.
  cbn [readMsgs xchgs stopped rlimit xchgQueue address perSec delivered].
  rewrite Hq. cbn [app]. unfold each, processMessage. cbn [Req Resp].
  rewrite Hrc, Htc. cbn. repeat split.
Qed.

End Delivery.

(** The witness of [response_reaches_requester]. *)
Lemma response_reaches_requester_witness :
  delivered (handleReadsIter (H := Bench.decls) Bench.tcpOk
               (fst (fst (responsesIter Bench.resolver1 Bench.sampler0
                            Bench.observed0))))
  = [(0%nat, {| ResMsg := Some Bench.reply0; Again := false; ResErr := None |})].
Proof.
  destruct (@response_reaches_requester Bench.decls Bench.tcpOk Bench.resolver1
              Bench.sampler0 Bench.observed0 Bench.reply0 _ _ Bench.request1 []
              eq_refl eq_refl eq_refl eq_refl eq_refl eq_refl)
    as [Hd _].
  exact Hd.
Defined.

(** ** [Query] *)

Section Querying.
Context `{PackageDecls}.

(** X12. [Query] turns down a priority that is none of the four, and any
    call on a stopped resolver, with a [ResolveError] coded
    [ResolverErrRcode] and no response; nothing is queued and the caller's
    message is not touched. *)
Theorem Query_rejects (e : engine) (attempts : list attempt) (msg : Msg) (p : Z)
    (retry : option Retry) :
  validPriority p = false \/ Stopped e = true ->
  exists err,
    Query e attempts msg p retry
    = Returned {| qResp := None; qErr := Some (IsResolveError err);
                  qResolver := res e; qMsg := msg; qTimes := 0 |} /\
    ErrRcode err = ResolverErrRcode.
Proof.
  intros Hbad. unfold Query.
  destruct (validPriority p); cbn [negb].
  - destruct Hbad as [Hp | Hs]; [discriminate |]. rewrite Hs.
    eexists. split; reflexivity.
  - eexists. split; reflexivity.
Qed.

(** X13. Without a retry policy [Query] makes one attempt, whatever its
    result: on a running resolver and a context that is not cancelled it
    returns the response and the error of the first [queueQuery], and leaves
    the caller's message as it was. *)
Theorem Query_without_policy (e : engine) (a : attempt) (rest : list attempt)
    (msg : Msg) (p : Z) (result : resolveResult) (r' : baseResolver) :
  validPriority p = true ->
  Stopped e = false ->
  ctxErr a = None ->
  queueQuery (res e) msg p (attemptChan a) (attemptIds a) (attemptSel a)
  = Returned (result, r') ->
  Query e (a :: rest) msg p None
  = Returned {| qResp := ResMsg result;
                qErr := option_map IsResolveError (ResErr result);
                qResolver := r'; qMsg := msg; qTimes := 1 |}.
Proof.
  intros Hp Hs Hctx Hq. unfold Query. rewrite Hp, Hs. cbn [negb queryLoop].
  rewrite Hctx, Hq. cbn. now destruct (ResErr result).
Qed.

(** X14. [Query] never reads the retryable flag of a result: with the
    flags of the results it receives set in any other way, it makes the same
    attempts and returns the same. *)
Theorem Query_ignores_Again (f : resolveResult -> bool) (e : engine)
    (attempts : list attempt) (msg : Msg) (p : Z) (retry : option Retry) :
  Query e (map (reflag f) attempts) msg p retry = Query e attempts msg p retry.
Proof.
  unfold Query. destruct (negb (validPriority p)); [reflexivity |].
  destruct (Stopped e); [reflexivity |].
  generalize (res e) as r. generalize (@nil nat) as chans.
  generalize 0 as times. generalize (@None Msg) as resp. revert msg.
  induction attempts as [| a attempts IH]; intros msg resp times chans r;
    [reflexivity |].
  cbn [map queryLoop reflag ctxErr attemptChan attemptIds attemptSel].
  destruct (ctxErr a); [reflexivity |].
  unfold queueQuery.
  destruct (Questions msg) as [| q qs]; [reflexivity |].
  destruct (xchgAdd _ (attemptIds a) (xchgs r)) as [err | [req' t]].
  - cbn. destruct retry as [policy |]; [| reflexivity].
    destruct (policy _ p _); [apply IH | reflexivity].
  - destruct (attemptSel a) as [| result]; cbn.
    + destruct retry as [policy |]; [| reflexivity].
      destruct (policy _ p _); [apply IH | reflexivity].
    + destruct (ResErr result) as [err |]; [| reflexivity].
      destruct retry as [policy |]; [| reflexivity].
      destruct (ResMsg result) as [m |].
      * destruct (policy _ p m); [apply IH | reflexivity].
      * destruct (policy _ p _); [apply IH | reflexivity].
Qed.

Lemma with_Rcode_twice (m : Msg) (c c' : Z) :
  with_Rcode (with_Rcode m c) c' = with_Rcode m c'.
Proof. reflexivity. Qed.

Lemma queryLoop_overwrites (policy : Retry) (p : Z) (attempts : list attempt) :
  forall (r : baseResolver) (msg : Msg) (chans : list nat) (times : Z)
         (resp : option Msg) (q : queryResult) (err : ResolveError),
    queryLoop attempts (Some policy) r msg p chans times resp = Returned q ->
    qErr q = Some (IsResolveError err) ->
    qResp q = None ->
    qMsg q = with_Rcode msg (ErrRcode err).
Proof.
  induction attempts as [| a attempts IH];
    intros r msg chans times resp q err Hrun Herr Hresp; [discriminate |].
  cbn [queryLoop] in Hrun.
  destruct (ctxErr a).
  { injection Hrun as <-. discriminate. }
  apply bind_ret_inv in Hrun as [[result r1] [Hq Hrun]].
  destruct (ResErr result) as [e0 |] eqn:He0.
  2:{ injection Hrun as <-. discriminate. }
  destruct (ResMsg result) as [m |] eqn:Hm.
  - destruct (policy (times + 1) p m).
    + exact (IH _ _ _ _ _ _ _ Hrun Herr Hresp).
    + injection Hrun as <-. discriminate.
  - destruct (policy (times + 1) p (with_Rcode msg (ErrRcode e0))).
    + rewrite (IH _ _ _ _ _ _ _ Hrun Herr Hresp). apply with_Rcode_twice.
    + injection Hrun as <-. cbn in Herr |- *.
      injection Herr as ->. reflexivity.
Qed.

(** X15. With a retry policy, a [Query] on a running resolver that ends
    in a [ResolveError] and no response has written the code of that error
    into the [Rcode] of the caller's message; the other fields of the message
    are as the caller gave them. *)
Theorem Query_overwrites_Rcode (e : engine) (attempts : list attempt) (msg : Msg)
    (p : Z) (policy : Retry) (q : queryResult) (err : ResolveError) :
  validPriority p = true ->
  Stopped e = false ->
  Query e attempts msg p (Some policy) = Returned q ->
  qErr q = Some (IsResolveError err) ->
  qResp q = None ->
  qMsg q = with_Rcode msg (ErrRcode err).
Proof.
  intros Hp Hs. unfold Query. rewrite Hp, Hs. cbn [negb].
  apply queryLoop_overwrites.
Qed.

End Querying.

(** The witness of [Query_rejects]: priority 9 is none of the four. *)
Lemma Query_rejects_witness :
  exists err,
    Query (H := Bench.decls) MoreBench.engine0 MoreBench.attempts0 Bench.query0 9
      (Some MoreBench.retryTwice)
    = Returned {| qResp := None; qErr := Some (IsResolveError err);
                  qResolver := Bench.resolver0; qMsg := Bench.query0;
                  qTimes := 0 |}.
Proof.
  destruct (@Query_rejects Bench.decls MoreBench.engine0 MoreBench.attempts0
              Bench.query0 9 (Some MoreBench.retryTwice) (or_introl eq_refl))
    as [err [Hq _]].
  now exists err.
Defined.

(** The witness of [Query_without_policy]: the first attempt times out
    and no other is made. *)
Lemma Query_without_policy_witness :
  exists r',
    Query (H := Bench.decls) MoreBench.engine0 MoreBench.attempts0 Bench.query0 1
      None
    = Returned {| qResp := None;
                  qErr := Some (IsResolveError
                                  {| Err := "timed out"; ErrRcode := 101 |});
                  qResolver := r'; qMsg := Bench.query0; qTimes := 1 |}.
Proof.
  eexists.
  apply (@Query_without_policy Bench.decls MoreBench.engine0
           {| ctxErr := None; attemptChan := 10%nat; attemptIds := [];
              attemptSel := FromResultChan MoreBench.timedOut |}
           (tl MoreBench.attempts0) Bench.query0 1 MoreBench.timedOut).
  - reflexivity.
  - reflexivity.
  - reflexivity.
  - vm_compute. reflexivity.
Defined.

(** The witness of [Query_overwrites_Rcode]: the policy declines after
    the first time-out. *)
Lemma Query_overwrites_Rcode_witness :
  exists q,
    Query (H := Bench.decls) MoreBench.engine0 MoreBench.attempts0 Bench.query0 1
      (Some (fun _ _ _ => false)) = Returned q /\
    Rcode (qMsg q) = 101.
Proof.
  assert (Hrun : exists q,
             Query (H := Bench.decls) MoreBench.engine0 MoreBench.attempts0
               Bench.query0 1 (Some (fun _ _ _ => false)) = Returned q /\
             qErr q = Some (IsResolveError {| Err := "timed out"; ErrRcode := 101 |}) /\
             qResp q = None).
  { vm_compute. eexists. repeat split. }
  destruct Hrun as (q & Hq & Herr & Hresp). exists q. split; [exact Hq |].
  rewrite (@Query_overwrites_Rcode Bench.decls MoreBench.engine0
             MoreBench.attempts0 Bench.query0 1 (fun _ _ _ => false) q
             {| Err := "timed out"; ErrRcode := 101 |} eq_refl eq_refl Hq Herr Hresp).
  reflexivity.
Defined.

End EngineMore.
(** * Further properties of wildcard detection *)

Module WildcardMore.
Import Dns GoStrings StringSet Wildcards WildcardSpec.

Section Frames.
Context {G N : Type} `{RandSource G} `{Detector N} `{Pool G} `{Key} `{Extractor}.

(** ** What the probe leaves alone *)

Lemma makeQueryAttempts_frame (r r' : Resolvers G N) (name : string) (qtype : Z)
    (a : list ExtractedAnswer) :
  makeQueryAttempts r name qtype = Returned (a, r') ->
  pool r' = pool r /\ detector r' = detector r /\ wildcards r' = wildcards r /\
  rng r' = rng r /\ log r' = log r.
Proof.
  unfold makeQueryAttempts. destruct (getDetectionResolver r); [| discriminate].
  destruct (queryAttempts _ _ name qtype (net r)) as [a' nt].
  intros Hret. injection Hret as _ <-. now repeat split.
Qed.

Lemma queryTypes_frame (name : string) (types : list Z) :
  forall (detected : bool) (ans : list ExtractedAnswer) (r : Resolvers G N)
         (detected' : bool) (ans' : list ExtractedAnswer) (r' : Resolvers G N),
    queryTypes types name detected ans r = Returned (detected', ans', r') ->
    (pool r' = pool r /\ detector r' = detector r /\ wildcards r' = wildcards r /\
     rng r' = rng r /\ log r' = log r) /\
    exists more, ans' = (ans ++ more)%list /\
                 detected' = detected || negb (Nat.eqb (length more) 0).
Proof.
  induction types as [| t types IH];
    intros detected ans r detected' ans' r' Hrun; cbn [queryTypes] in Hrun.
  - injection Hrun as <- <- <-. split; [now repeat split |].
    exists []. now rewrite app_nil_r, orb_false_r.
  - apply bind_Returned in Hrun as [[a r1] [Hq Hrun]].
    apply makeQueryAttempts_frame in Hq as (Hp & Hd & Hw & Hg & Hl).
    destruct (Z.ltb_spec 0 (Z.of_nat (length a))) as [Hpos | Hzero].
    + apply IH in Hrun as [(Hp' & Hd' & Hw' & Hg' & Hl') [more [-> ->]]].
      split; [repeat split; congruence |].
      exists (a ++ more)%list. rewrite app_assoc. split; [reflexivity |].
      destruct a; [cbn in Hpos; lia |]. cbn. now rewrite orb_true_r.
    + apply IH in Hrun as [(Hp' & Hd' & Hw' & Hg' & Hl') [more [-> ->]]].
      split; [repeat split; congruence |].
      exists more. destruct a; [now split | cbn in Hzero; lia].
Qed.

Lemma probeRound_frame (fuel : nat) (sub : string) (detected : bool)
    (r : Resolvers G N) (detected' : bool) (ans : list ExtractedAnswer)
    (r' : Resolvers G N) :
  probeRound fuel sub detected r = Returned (detected', ans, r') ->
  pool r' = pool r /\ detector r' = detector r /\ wildcards r' = wildcards r /\
  log r' = log r /\
  detected' = detected || negb (Nat.eqb (length ans) 0).
Proof.
  unfold probeRound. intros Hrun.
  apply bind_Returned in Hrun as [[name g] [_ Hrun]].
  apply queryTypes_frame in Hrun as [(Hp & Hd & Hw & Hg & Hl) [more [-> ->]]].
  cbn in *. now repeat split.
Qed.

(** The pool a probe returns is the one its third round left, with one
    line added to the log when the flag is set. *)
Lemma wildcardTest_state (fuel : nat) (r : Resolvers G N) (sub : string)
    (detected : bool) (final : list ExtractedAnswer) (r' : Resolvers G N) :
  wildcardTest fuel r sub = Returned (detected, final, r') ->
  exists r2 : Resolvers G N,
    pool r2 = pool r /\ detector r2 = detector r /\ wildcards r2 = wildcards r /\
    log r2 = log r /\
    (detected = false /\ r' = r2 \/
     detected = true /\
     exists d, detector r2 = Some d /\
               r' = set_log r2
                      (app (log r2)
                           ["DNS wildcard detected: Resolver " ++ raddress d
                            ++ ": " ++ ("*." ++ sub)])).
Proof.
  unfold wildcardTest. intros Hrun.
  apply bind_Returned in Hrun as [[[[det answers] set] r3] [Hrounds Hfin]].
  change (Z.to_nat numOfWildcardTests) with 3%nat in Hrounds.
  cbn [probeRounds] in Hrounds.
  apply bind_Returned in Hrounds as [[[d0 ans0] r0] [H0' Hrounds]].
  apply bind_Returned in Hrounds as [[[d1 ans1] r1] [H1' Hrounds]].
  apply bind_Returned in Hrounds as [[[d2 ans2] r2] [H2' Hrounds]].
  apply probeRound_frame in H0' as (Hp0 & Hd0 & Hw0 & Hl0 & _).
  apply probeRound_frame in H1' as (Hp1 & Hd1 & Hw1 & Hl1 & _).
  apply probeRound_frame in H2' as (Hp2 & Hd2 & Hw2 & Hl2 & _).
  assert (Hr3 : r3 = r2 /\ det = d2) by (now inversion Hrounds).
  destruct Hr3 as [-> ->].
  exists r2.
  split; [congruence |]. split; [congruence |]. split; [congruence |].
  split; [congruence |].
  destruct d2.
  - destruct (detector r2) as [d |] eqn:Hdet; [| discriminate].
    injection Hfin as <- _ <-. right. split; [reflexivity |].
    exists d. now split.
  - injection Hfin as <- _ <-. left. now split.
Qed.

(** X16. A probe that returns leaves the pool, the detection resolver
    and the registry as they were, and adds to the log one line, naming the
    detection resolver and the suffix, exactly when it has detected a
    wildcard. *)
Theorem wildcardTest_frame (fuel : nat) (r : Resolvers G N) (sub : string)
    (detected : bool) (final : list ExtractedAnswer) (r' : Resolvers G N) :
  wildcardTest fuel r sub = Returned (detected, final, r') ->
  pool r' = pool r /\ detector r' = detector r /\ wildcards r' = wildcards r /\
  (detected = false -> log r' = log r) /\
  (detected = true ->
   exists d, detector r = Some d /\
             log r' = app (log r)
                          ["DNS wildcard detected: Resolver " ++ raddress d
                           ++ ": " ++ ("*." ++ sub)]).
Proof.
  intros Hrun.
  apply wildcardTest_state in Hrun as (r2 & Hp & Hd & Hw & Hl & Hcase).
  destruct Hcase as [[-> ->] | [-> (d & Hdet & ->)]].
  - split; [exact Hp |]. split; [exact Hd |]. split; [exact Hw |].
    split; [intros _; exact Hl | discriminate].
  - cbn [pool detector wildcards log set_log].
    split; [exact Hp |]. split; [exact Hd |]. split; [exact Hw |].
    split; [discriminate |].
    intros _. exists d. split; [congruence |]. now rewrite Hl.
Qed.

(** X18. The flag a probe returns is set exactly when one of its three
    rounds had an answer, while its canonical list is empty unless every
    round had one: a wildcard seen in some rounds only is stored without
    answers, and such a state matches every response. *)
Theorem wildcardTest_flag (fuel : nat) (r : Resolvers G N) (sub : string)
    (detected : bool) (final : list ExtractedAnswer) (r' : Resolvers G N) :
  wildcardTest fuel r sub = Returned (detected, final, r') ->
  exists d0 ans0 r0 d1 ans1 r1 ans2 r2,
    probeRound fuel sub false r = Returned (d0, ans0, r0) /\
    probeRound fuel sub d0 r0 = Returned (d1, ans1, r1) /\
    probeRound fuel sub d1 r1 = Returned (detected, ans2, r2) /\
    (detected = true <-> ans0 <> [] \/ ans1 <> [] \/ ans2 <> []) /\
    (final <> [] -> ans0 <> [] /\ ans1 <> [] /\ ans2 <> []) /\
    (detected = true -> ans0 = [] \/ ans1 = [] \/ ans2 = [] ->
     final = [] /\
     forall resp,
       respMatchesWildcard {| Detected := detected; Answers := final |} resp
       = true).
Proof.
  intros Hrun.
  destruct (wildcardTest_rounds fuel r sub detected final r' Hrun)
    as (d0 & ans0 & r0 & d1 & ans1 & r1 & ans2 & r2
        & H0' & H1' & H2' & Hmem & _).
  exists d0, ans0, r0, d1, ans1, r1, ans2, r2.
  split; [exact H0' |]. split; [exact H1' |]. split; [exact H2' |].
  apply probeRound_frame in H0' as (_ & _ & _ & _ & Hf0).
  apply probeRound_frame in H1' as (_ & _ & _ & _ & Hf1).
  apply probeRound_frame in H2' as (_ & _ & _ & _ & Hf2).
  assert (Hall : final <> [] -> ans0 <> [] /\ ans1 <> [] /\ ans2 <> []).
  { destruct final as [| a final]; [intros Hne; now contradiction Hne |].
    intros _. destruct (Hmem a (or_introl eq_refl)) as [_ Hevery].
    split; [| split].
    - destruct (Hevery ans0) as [b [Hb _]]; [now left |]. now intros ->.
    - destruct (Hevery ans1) as [b [Hb _]]; [right; now left |]. now intros ->.
    - destruct (Hevery ans2) as [b [Hb _]]; [right; right; now left |].
      now intros ->. }
  split.
  { subst detected d1 d0. destruct ans0, ans1, ans2; cbn;
      split; try discriminate; try reflexivity; intros Hne;
      try (left; discriminate); try (right; left; discriminate);
      try (right; right; discriminate).
    destruct Hne as [Hne | [Hne | Hne]]; now contradiction Hne. }
  split; [exact Hall |].
  intros -> Hsome.
  assert (Hempty : final = []).
  { destruct final as [| a final]; [reflexivity |].
    destruct Hall as (Ha0 & Ha1 & Ha2); [discriminate |].
    destruct Hsome as [-> | [-> | ->]]; contradiction. }
  split; [exact Hempty |]. intros resp. subst final. reflexivity.
Qed.

(** ** The detection resolver *)

(** [goodDetector] never touches the registry, and answers true exactly
    when it leaves a detection resolver set. *)
Lemma goodDetector_inv (r r' : Resolvers G N) (good : bool) :
  goodDetector r = (good, r') ->
  wildcards r' = wildcards r /\ (good = true <-> detector r' <> None).
Proof.
  unfold goodDetector, getDetectionResolver, SetDetectionResolver.
  destruct (detector r) as [d |] eqn:Hd.
  - intros Hret. injection Hret as <- <-. rewrite Hd. now split.
  - destruct (randResolver (pool r) (rng r)) as [[d |] g].
    + cbn [pool set_rng].
      destruct (AddResolvers (qps d) (raddress d) (pool r)) as [[err |] p].
      * intros Hret. injection Hret as <- <-. cbn. rewrite Hd.
        split; [reflexivity |]. split; [discriminate | congruence].
      * cbn [pool set_pool].
        destruct (searchList _ p) as [found |].
        -- intros Hret. injection Hret as <- <-. cbn. now split.
        -- intros Hret. injection Hret as <- <-. cbn. rewrite Hd.
           split; [reflexivity |]. split; [discriminate | congruence].
    + intros Hret. injection Hret as <- <-. cbn. rewrite Hd.
      split; [reflexivity |]. split; [discriminate | congruence].
Qed.

(** X17. [goodDetector] answers true exactly when it leaves a detection
    resolver set; it touches neither the registry, nor the network, nor the
    log; a detection resolver that is set is kept, with nothing else changed;
    and one that it adopts is a member of the pool as [searchList] finds
    it. *)
Theorem goodDetector_sets (r r' : Resolvers G N) (good : bool) :
  goodDetector r = (good, r') ->
  (good = true <-> detector r' <> None) /\
  wildcards r' = wildcards r /\ net r' = net r /\ log r' = log r /\
  (detector r <> None -> r' = r) /\
  (detector r = None ->
   forall d, detector r' = Some d ->
             exists addr, searchList addr (pool r') = Some d).
Proof.
  intros Hret.
  destruct (goodDetector_inv r r' good Hret) as [Hw Hgood].
  split; [exact Hgood |]. split; [exact Hw |].
  revert Hret. unfold goodDetector, getDetectionResolver, SetDetectionResolver.
  destruct (detector r) as [d |] eqn:Hd.
  - intros Hret. injection Hret as _ <-. rewrite Hd.
    split; [reflexivity |]. split; [reflexivity |].
    split; [reflexivity | discriminate].
  - destruct (randResolver (pool r) (rng r)) as [[d |] g].
    + cbn [pool set_rng].
      destruct (AddResolvers (qps d) (raddress d) (pool r)) as [[err |] p].
      * intros Hret. injection Hret as _ <-. cbn. rewrite Hd.
        split; [reflexivity |]. split; [reflexivity |].
        split; [intros Hne; now contradiction Hne | discriminate].
      * cbn [pool set_pool].
        destruct (searchList _ p) as [found |] eqn:Hfound.
        -- intros Hret. injection Hret as _ <-. cbn.
           split; [reflexivity |]. split; [reflexivity |].
           split; [intros Hne; now contradiction Hne |].
           intros _ d' Hd'. injection Hd' as <-. eexists. exact Hfound.
        -- intros Hret. injection Hret as _ <-. cbn. rewrite Hd.
           split; [reflexivity |]. split; [reflexivity |].
           split; [intros Hne; now contradiction Hne | discriminate].
    + intros Hret. injection Hret as _ <-. cbn. rewrite Hd.
      split; [reflexivity |]. split; [reflexivity |].
      split; [intros Hne; now contradiction Hne | discriminate].
Qed.

(** ** The registry *)

(** One level of the walk: the suffix has a state in the registry
    afterwards, the response was matched against that state, and every other
    entry is as it was. *)
Lemma checkLevel_inv (fuel : nat) (resp : Msg) (sub : string) (r : Resolvers G N)
    (matched : bool) (r' : Resolvers G N) :
  checkLevel fuel resp sub r = Returned (matched, r') ->
  pool r' = pool r /\ detector r' = detector r /\
  (forall k w, wildcards r !! k = Some w -> wildcards r' !! k = Some w) /\
  exists w, wildcards r' !! sub = Some w /\ matched = respMatchesWildcard w resp.
Proof.
  unfold checkLevel, getWildcard.
  destruct (wildcards r !! sub) as [w |] eqn:Hw.
  - intros Hret. injection Hret as <- <-.
    split; [reflexivity |]. split; [reflexivity |].
    split; [now intros k w' Hk |]. exists w. now split.
  - intros Hret.
    apply bind_Returned in Hret as [[w r1] [Hprobe Hret]].
    apply bind_Returned in Hprobe as [[[d a] r2] [Ht Hw']].
    injection Hw' as <- <-. injection Hret as <- <-.
    apply wildcardTest_state in Ht as (r3 & Hp & Hd & Hwc & _ & Hcase).
    assert (Hr2 : pool r2 = pool r3 /\ detector r2 = detector r3 /\
                  wildcards r2 = wildcards r3).
    { destruct Hcase as [[_ ->] | [_ (x & _ & ->)]]; now repeat split. }
    destruct Hr2 as (Hp2 & Hd2 & Hw2).
    cbn [setWildcard set_wildcards pool detector wildcards] in *.
    split; [congruence |]. split; [congruence |].
    rewrite Hw2, Hwc. split.
    + intros k w' Hk.
      assert (Hne : sub <> k) by (intros ->; congruence).
      now rewrite !lookup_insert_ne.
    + eexists. split; [apply lookup_insert_eq | reflexivity].
Qed.

(** The walk only adds to the registry. *)
Lemma detectLoop_grows (fuel : nat) (resp : Msg) (labels : list string) (n : nat) :
  forall (r : Resolvers G N) (m : bool) (r' : Resolvers G N),
    detectLoop n fuel resp labels r = Returned (m, r') ->
    pool r' = pool r /\ detector r' = detector r /\
    (forall k w, wildcards r !! k = Some w -> wildcards r' !! k = Some w).
Proof.
  induction n as [| n IH]; intros r m r' Hrun; cbn [detectLoop] in Hrun.
  - injection Hrun as _ <-. now repeat split.
  - apply bind_Returned in Hrun as [[matched r1] [Hlevel Hrun]].
    apply checkLevel_inv in Hlevel as (Hp & Hd & Hkeep & _).
    destruct matched.
    + injection Hrun as _ <-. now repeat split.
    + apply IH in Hrun as (Hp' & Hd' & Hkeep').
      split; [congruence |]. split; [congruence |].
      intros k w Hk. now apply Hkeep', Hkeep.
Qed.

(** A walk that has returned is answered from the registry afterwards:
    on any pool that holds the entries it left, the same walk returns the same
    flag at once, whatever the fuel, and changes nothing. *)
Lemma detectLoop_memo (fuel : nat) (resp : Msg) (labels : list string) (n : nat) :
  forall (r : Resolvers G N) (m : bool) (r' : Resolvers G N),
    detectLoop n fuel resp labels r = Returned (m, r') ->
    forall (r'' : Resolvers G N) (fuel' : nat),
      (forall k w, wildcards r' !! k = Some w -> wildcards r'' !! k = Some w) ->
      detectLoop n fuel' resp labels r'' = Returned (m, r'').
Proof.
  induction n as [| n IH]; intros r m r' Hrun r'' fuel' Hsub;
    cbn [detectLoop] in Hrun |- *.
  - injection Hrun as <- _. reflexivity.
  - apply bind_Returned in Hrun as [[matched r1] [Hlevel Hrun]].
    apply checkLevel_inv in Hlevel as (_ & _ & _ & w & Hw & ->).
    destruct (respMatchesWildcard w resp) eqn:Hmatch.
    + injection Hrun as <- <-.
      rewrite (checkLevel_hit fuel' resp _ r'' w (Hsub _ _ Hw)).
      cbn. now rewrite Hmatch.
    + pose proof (detectLoop_grows fuel resp labels n r1 m r' Hrun)
        as (_ & _ & Hkeep).
      rewrite (checkLevel_hit fuel' resp _ r'' w (Hsub _ _ (Hkeep _ _ Hw))).
      cbn. rewrite Hmatch. now apply (IH r1 m r').
Qed.

(** X19. [WildcardDetected] only adds to the registry: a state held for
    a suffix before the call is held, unchanged, after it. *)
Theorem WildcardDetected_registry_grows (fuel : nat) (r : Resolvers G N)
    (resp : Msg) (domain : string) (b : bool) (r' : Resolvers G N) :
  WildcardDetected fuel r resp domain = Returned (b, r') ->
  forall k w, wildcards r !! k = Some w -> wildcards r' !! k = Some w.
Proof.
  unfold WildcardDetected.
  destruct (goodDetector r) as [good r1] eqn:Hgood.
  apply goodDetector_inv in Hgood as [Hw _].
  destruct good; cbn [negb].
  - destruct (Questions resp) as [| q qs]; [discriminate |].
    intros Hrun k w Hk.
    apply bind_Returned in Hrun as [[matched r2] [Hloop Hrun]].
    apply detectLoop_grows in Hloop as (_ & _ & Hkeep).
    assert (Hr' : r' = r2) by (destruct matched; now inversion Hrun).
    subst r'. apply Hkeep. now rewrite Hw.
  - intros Hrun k w Hk. injection Hrun as _ <-. now rewrite Hw.
Qed.

(** X20. The verdict is kept: once [WildcardDetected] has returned with
    a detection resolver set, the same call on the pool it left returns the
    same verdict and the same pool, whatever the fuel, so without a probe. *)
Theorem WildcardDetected_memo (fuel : nat) (r : Resolvers G N)
    (resp : Msg) (domain : string) (b : bool) (r' : Resolvers G N) :
  WildcardDetected fuel r resp domain = Returned (b, r') ->
  detector r' <> None ->
  forall fuel', WildcardDetected fuel' r' resp domain = Returned (b, r').
Proof.
  unfold WildcardDetected.
  destruct (goodDetector r) as [good r1] eqn:Hgood.
  apply goodDetector_inv in Hgood as [_ Hset].
  intros Hrun Hdet fuel'.
  assert (Hagain : goodDetector r' = (true, r')).
  { unfold goodDetector, getDetectionResolver.
    destruct (detector r'); [reflexivity | now contradiction Hdet]. }
  rewrite Hagain. cbn [negb].
  destruct good; cbn [negb] in Hrun.
  - destruct (Questions resp) as [| q qs]; [discriminate |].
    apply bind_Returned in Hrun as [[matched r2] [Hloop Hrun]].
    assert (Hr' : r' = r2) by (destruct matched; now inversion Hrun).
    subst r2.
    rewrite (detectLoop_memo fuel resp _ _ r1 matched r' Hloop r' fuel'
               (fun k w Hk => Hk)).
    exact Hrun.
  - injection Hrun as _ <-.
    destruct Hset as [_ Hset]. now discriminate (Hset Hdet).
Qed.

End Frames.

(** ** Unlikely names *)

Lemma TrimLeft_length (c : ascii) (s : string) :
  (String.length (TrimLeft c s) <= String.length s)%nat.
Proof.
  induction s as [| a s IH]; cbn; [lia |].
  destruct (Ascii.eqb a c); cbn; lia.
Qed.

Lemma TrimRight_length (c : ascii) (s : string) :
  (String.length (TrimRight c s) <= String.length s)%nat.
Proof.
  induction s as [| a s IH]; cbn; [lia |].
  destruct (TrimRight c s); [destruct (Ascii.eqb a c) |]; cbn in *; lia.
Qed.

Lemma Trim_length (s : string) (c : ascii) : len (Trim s c) <= len s.
Proof.
  unfold Trim, len.
  pose proof (TrimRight_length c (TrimLeft c s)).
  pose proof (TrimLeft_length c s). lia.
Qed.

Lemma LDHChars_NoDup : NoDup (list_ascii_of_string LDHChars).
Proof. apply (bool_decide_unpack _). vm_compute. reflexivity. Qed.

Section MoreNames.
Context {G : Type} `{RandSource G}.

Lemma swap_NoDup {A} (i j : Z) (l : list A) : NoDup l -> NoDup (swap i j l).
Proof.
  intros Hnd. unfold swap.
  destruct (l !! Z.to_nat i) as [x |] eqn:Hi; [| exact Hnd].
  destruct (l !! Z.to_nat j) as [y |] eqn:Hj; [| exact Hnd].
  pose proof (proj1 (NoDup_alt l) Hnd) as Hinj.
  apply NoDup_alt. intros a b z Ha Hb.
  apply list_lookup_insert_Some in Ha, Hb.
  rewrite length_insert in Ha, Hb.
  rewrite list_lookup_insert_Some in Ha, Hb.
  assert (Hcase : forall c, (Z.to_nat i = c /\ y = z \/
                  Z.to_nat i <> c /\ Z.to_nat j = c /\ x = z \/
                  Z.to_nat i <> c /\ Z.to_nat j <> c /\ l !! c = Some z) ->
                  exists c', l !! c' = Some z /\
                    (c' = Z.to_nat j /\ c = Z.to_nat i \/
                     c' = Z.to_nat i /\ c = Z.to_nat j /\ c <> Z.to_nat i \/
                     c' = c /\ c <> Z.to_nat i /\ c <> Z.to_nat j)).
  { intros c [(<- & <-) | [(Hc & <- & <-) | (Hc & Hc' & Hz)]].
    - exists (Z.to_nat j). split; [exact Hj |]. now left.
    - exists (Z.to_nat i). split; [exact Hi |]. right. left. auto.
    - exists c. split; [exact Hz |]. right. right. auto. }
  destruct (Hcase a) as (a' & Hza & Hca); [intuition auto |].
  destruct (Hcase b) as (b' & Hzb & Hcb); [intuition auto |].
  pose proof (Hinj _ _ _ Hza Hzb) as Heq.
  destruct Hca as [[-> ->] | [(-> & -> & ?) | (-> & ? & ?)]];
    destruct Hcb as [[-> ->] | [(-> & -> & ?) | (-> & ? & ?)]];
    congruence.
Qed.

Lemma shuffleFrom_NoDup {A} (i : nat) :
  forall (l : list A) (g : G), NoDup l -> NoDup (fst (shuffleFrom i l g)).
Proof.
  induction i as [| i IH]; intros l g Hl; cbn [shuffleFrom]; [exact Hl |].
  destruct (Intn (Z.of_nat (S i) + 1) g) as [j g'].
  apply IH. now apply swap_NoDup.
Qed.

(** The label is filled from the first 36 places of the slice. *)
Lemma fillLabel_places (ldh : list ascii) :
  rand_ok -> length ldh = 37%nat ->
  forall (n : nat) (acc : string) (g : G),
    (forall c, In c (list_ascii_of_string acc) ->
               exists k, (k < 36)%nat /\ ldh !! k = Some c) ->
    forall c, In c (list_ascii_of_string (fst (fillLabel n ldh 37 acc g))) ->
              exists k, (k < 36)%nat /\ ldh !! k = Some c.
Proof.
  intros [_ Hint] Hlen. induction n as [| n IH]; intros acc g Hacc;
    cbn [fillLabel]; [exact Hacc |].
  pose proof (Hint g) as Hx. destruct (Int g) as [x g']. cbn [fst] in Hx.
  apply IH. intros c Hc. rewrite list_ascii_append in Hc.
  apply in_app_or in Hc as [Hc | [<- | []]]; [now apply Hacc |].
  change (37 - 1) with 36.
  assert (Hsel : 0 <= Z.rem x 36 < 36) by (apply Z.rem_bound_pos; lia).
  exists (Z.to_nat (Z.rem x 36)). split; [lia |].
  destruct (lookup_lt_is_Some_2 ldh (Z.to_nat (Z.rem x 36))) as [c Hc]; [lia |].
  rewrite Hc. f_equal. symmetry. now apply nth_lookup_Some.
Qed.

(** The length of the label before it is trimmed. *)
Lemma rawLabel_length (sub : string) (g : G) :
  rand_ok ->
  MinLabelLen <= len (fst (rawLabel sub g)) <= maxLabelLenFor sub.
Proof.
  intros Hok. unfold rawLabel. rewrite (maxLabelLenFor_eq sub).
  set (hi := Z.max MinLabelLen (Z.min MaxLabelLen (MaxDNSNameLen - len sub - 1))).
  set (ldh0 := list_ascii_of_string LDHChars).
  change (Z.of_nat (length ldh0)) with 37.
  unfold Shuffle.
  assert (H0 : Forall (fun _ => True) ldh0) by (now apply List.Forall_forall).
  destruct (shuffleFrom_inv (fun _ => True) (Z.to_nat (37 - 1)) ldh0 g H0)
    as [Hldh Hlen].
  destruct (shuffleFrom (Z.to_nat (37 - 1)) ldh0 g) as [ldh g1].
  cbn [fst] in Hldh, Hlen.
  assert (Hhi : MinLabelLen <= hi) by (unfold hi; lia).
  pose proof (proj1 Hok (hi - MinLabelLen + 1) g1 ltac:(lia)) as Hk.
  destruct (Intn (hi - MinLabelLen + 1) g1) as [k g2]. cbn [fst] in Hk.
  destruct (fillLabel_inv (fun _ => True) ldh Hok Hldh Hlen
              (Z.to_nat (MinLabelLen + k)) EmptyString g2
              (List.Forall_nil _))
    as [Hl _].
  unfold len. rewrite Hl. cbn [String.length]. unfold MinLabelLen in *. lia.
Qed.

(** X21. For a source that keeps the contract of [math/rand], the name
    [UnlikelyName] returns is at most [MaxLabelLen + 1] bytes longer than
    [sub], and it is within [MaxDNSNameLen] whenever [sub] leaves room for a
    label of [MinLabelLen] bytes and the dot. *)
Theorem UnlikelyName_length (sub : string) (g : G) :
  rand_ok ->
  len (fst (UnlikelyName sub g)) <= len sub + MaxLabelLen + 1 /\
  (len sub + MinLabelLen + 1 <= MaxDNSNameLen ->
   len (fst (UnlikelyName sub g)) <= MaxDNSNameLen).
Proof.
  intros Hok. pose proof (rawLabel_length sub g Hok) as Hraw.
  rewrite maxLabelLenFor_eq in Hraw.
  unfold UnlikelyName. destruct (rawLabel sub g) as [label g']. cbn [fst] in Hraw.
  pose proof (Trim_length label "-") as Htrim.
  assert (Hsub : 0 <= len sub) by (unfold len; lia).
  destruct (String.eqb_spec (Trim label "-") EmptyString) as [-> | _]; cbn [fst].
  - unfold len in *. cbn [String.length].
    unfold MaxLabelLen, MaxDNSNameLen, MinLabelLen in *. lia.
  - assert (Hname : len (Trim label "-" ++ "." ++ sub)
                    = len (Trim label "-") + 1 + len sub).
    { unfold len. rewrite !length_append. cbn [String.length]. lia. }
    rewrite Hname. unfold MaxLabelLen, MaxDNSNameLen, MinLabelLen in *. lia.
Qed.

(** X22. For a source that keeps the contract of [math/rand], the
    character the shuffle leaves in the last place of the slice, one of
    [LDHChars], occurs nowhere in the label: the index is taken modulo
    [ldhLen - 1], so the label draws on 36 of the 37 characters. *)
Theorem UnlikelyName_skips_last (sub : string) (g : G) :
  rand_ok ->
  let ldh := fst (Shuffle 37 (list_ascii_of_string LDHChars) g) in
  exists last : ascii,
    ldh !! 36%nat = Some last /\
    In last (list_ascii_of_string LDHChars) /\
    ~ In last (list_ascii_of_string (fst (rawLabel sub g))).
Proof.
  intros Hok ldh. subst ldh. unfold rawLabel.
  set (ldh0 := list_ascii_of_string LDHChars).
  change (Z.of_nat (length ldh0)) with 37.
  unfold Shuffle.
  assert (H0 : Forall (fun c => In c ldh0) ldh0) by (now apply List.Forall_forall).
  destruct (shuffleFrom_inv (fun c => In c ldh0) (Z.to_nat (37 - 1)) ldh0 g H0)
    as [Hldh Hlen].
  pose proof (shuffleFrom_NoDup (Z.to_nat (37 - 1)) ldh0 g LDHChars_NoDup) as Hnd.
  destruct (shuffleFrom (Z.to_nat (37 - 1)) ldh0 g) as [ldh g1].
  cbn [fst] in Hldh, Hlen, Hnd |- *.
  change (length ldh0) with 37%nat in Hlen.
  destruct (lookup_lt_is_Some_2 ldh 36) as [last Hlast]; [lia |].
  exists last. split; [exact Hlast |]. split.
  { apply (proj1 (List.Forall_forall _ ldh) Hldh).
    apply list_elem_of_In. now apply (list_elem_of_lookup_2 ldh 36). }
  destruct (Intn (maxLabelLenFor sub - MinLabelLen + 1) g1) as [k g2].
  intros Hin.
  destruct (fillLabel_places ldh Hok Hlen (Z.to_nat (MinLabelLen + k))
              EmptyString g2 (fun c (Hc : In c []) => match Hc with end)
              last Hin)
    as (p & Hp & Hat).
  pose proof (proj1 (NoDup_alt ldh) Hnd _ _ _ Hat Hlast). lia.
Qed.

End MoreNames.

(** ** Runs on the bench *)

Section MoreRuns.
Import TestBench.

(** The witness of [wildcardTest_frame]: the probe of
    [wildcard.domain.com] against the test server. *)
Lemma wildcardTest_frame_witness :
  exists final r',
    wildcardTest 1 pool1 "wildcard.domain.com" = Returned (true, final, r') /\
    wildcards r' = wildcards pool1 /\
    log r'
    = ["DNS wildcard detected: Resolver 127.0.0.1:5353: *.wildcard.domain.com"].
Proof.
  assert (Hval : exists final r',
             wildcardTest 1 pool1 "wildcard.domain.com"
             = Returned (true, final, r')).
  { vm_compute. eexists. eexists. reflexivity. }
  destruct Hval as (final & r' & Hrun).
  destruct (wildcardTest_frame 1 pool1 "wildcard.domain.com" true final r' Hrun)
    as (_ & _ & Hw & _ & Hlog).
  destruct (Hlog eq_refl) as (d & Hd & Hl).
  exists final, r'. split; [exact Hrun |]. split; [exact Hw |].
  injection Hd as <-. exact Hl.
Defined.

(** The witness of [wildcardTest_flag]: against a server that stops
    answering after the first round the probe reports a wildcard and keeps no
    answer, and the state matches the response for a name the server does not
    know. *)
Lemma wildcardTest_flag_witness :
  exists r',
    @wildcardTest _ _ replay MoreBench.flakyServer lowerKey extractAll
      1 pool1 "wildcard.domain.com"
    = Returned (true, [], r') /\
    respMatchesWildcard {| Detected := true; Answers := [] |}
      (response "www.wildcard.domain.com") = true.
Proof.
  assert (Hval : exists r',
             @wildcardTest _ _ replay MoreBench.flakyServer lowerKey extractAll
               1 pool1 "wildcard.domain.com"
             = Returned (true, [], r')).
  { vm_compute. eexists. reflexivity. }
  destruct Hval as (r' & Hrun).
  destruct (@wildcardTest_flag _ _ replay MoreBench.flakyServer lowerKey
              extractAll 1 pool1 "wildcard.domain.com" true [] r' Hrun)
    as (d0 & ans0 & r0 & d1 & ans1 & r1 & ans2 & r2
        & H0' & H1' & _ & _ & _ & Hany).
  assert (Hsecond :
            match @probeRound _ _ replay MoreBench.flakyServer extractAll
                    1 "wildcard.domain.com" false pool1 with
            | Returned (d, _, r) =>
                match @probeRound _ _ replay MoreBench.flakyServer extractAll
                        1 "wildcard.domain.com" d r with
                | Returned (_, ans, _) => ans = []
                | _ => False
                end
            | _ => False
            end).
  { vm_compute. reflexivity. }
  rewrite H0' in Hsecond. cbv beta iota in Hsecond.
  rewrite H1' in Hsecond. cbv beta iota in Hsecond.
  exists r'. split; [exact Hrun |].
  apply (Hany eq_refl). right. left. exact Hsecond.
Defined.

(** The witness of [goodDetector_sets]: the pool of the test adopts its
    one resolver. *)
Lemma goodDetector_sets_witness :
  goodDetector pool0 = (true, pool1) /\ detector pool1 <> None /\
  forall d, detector pool1 = Some d ->
            exists addr, searchList addr (pool pool1) = Some d.
Proof.
  assert (Hrun : goodDetector pool0 = (true, pool1)) by (vm_compute; reflexivity).
  destruct (goodDetector_sets pool0 pool1 true Hrun)
    as (Hgood & _ & _ & _ & _ & Hfound).
  split; [exact Hrun |]. split; [now apply Hgood |].
  apply Hfound. reflexivity.
Defined.

(** The witness of [WildcardDetected_registry_grows]: a call about a name
    under [domain.com] on a pool that has probed under [example.com]. *)
Lemma WildcardDetected_registry_grows_witness :
  exists r',
    WildcardDetected 1 pool2 (response "jeff_foley.wildcard.domain.com")
      "domain.com" = Returned (true, r') /\
    wildcards r' !! "c.example.com" = Some {| Detected := false; Answers := [] |}.
Proof.
  assert (Hval : exists r',
             WildcardDetected 1 pool2 (response "jeff_foley.wildcard.domain.com")
               "domain.com" = Returned (true, r')).
  { vm_compute. eexists. reflexivity. }
  destruct Hval as (r' & Hrun).
  exists r'. split; [exact Hrun |].
  apply (WildcardDetected_registry_grows 1 pool2 _ _ true r' Hrun).
  vm_compute. reflexivity.
Defined.

(** The witness of [WildcardDetected_memo]: the second case of the test
    file asked twice, the second time without fuel. *)
Lemma WildcardDetected_memo_witness :
  exists r',
    WildcardDetected 1 pool0 (response "jeff_foley.wildcard.domain.com")
      "domain.com" = Returned (true, r') /\
    WildcardDetected 0 r' (response "jeff_foley.wildcard.domain.com")
      "domain.com" = Returned (true, r').
Proof.
  assert (Hval : exists r',
             WildcardDetected 1 pool0 (response "jeff_foley.wildcard.domain.com")
               "domain.com" = Returned (true, r') /\
             detector r' = Some {| qps := 100; raddress := "127.0.0.1:5353" |}).
  { vm_compute. eexists. split; reflexivity. }
  destruct Hval as (r' & Hrun & Hdet).
  exists r'. split; [exact Hrun |].
  apply (WildcardDetected_memo 1 pool0 _ _ true r' Hrun).
  rewrite Hdet. discriminate.
Defined.

(** The witness of [UnlikelyName_length]: a name under [domain.com]. *)
Lemma UnlikelyName_length_witness :
  len (fst (UnlikelyName "domain.com" ([] : list Z))) <= MaxDNSNameLen.
Proof.
  apply (UnlikelyName_length "domain.com" [] replay_ok).
  vm_compute. discriminate.
Defined.

(** The witness of [UnlikelyName_skips_last]: when every draw is zero the
    shuffle leaves "a" last, and the label has no "a". *)
Lemma UnlikelyName_skips_last_witness :
  ~ In "a"%char (list_ascii_of_string (fst (rawLabel "domain.com" ([] : list Z)))).
Proof.
  destruct (UnlikelyName_skips_last "domain.com" [] replay_ok)
    as (last & Hlast & _ & Hnot).
  vm_compute in Hlast. injection Hlast as Hl. subst last. exact Hnot.
Defined.

End MoreRuns.

End WildcardMore.
